(** * bonzai [pkg/core/vars]: the persistent key=value store [Map]

    A shallow embedding of [pkg/core/vars/map.go].  Go strings are
    modelled as Rocq [string]s (sequences of one-byte characters), the Go
    map [M] as a stdpp [gmap string string], the receiver [*Map] together
    with the file system as the state of a small monad, a Go [error]
    result as [option error] ([None] is [nil]), and a run-time panic as
    the [Panicked] outcome of the monad, which keeps the store and the
    world as they were when the panic was raised.  The mutex is not
    modelled: every operation is run to completion before the next one
    starts.  A [Map] is assumed to come from [NewMap], so that [M] is an
    allocated map and never the nil map. *)

From stdpp Require Import gmap strings list fin_maps.
From Stdlib Require Import Ascii String.

Local Open Scope string_scope.

(** In this file [simpl] computes the concatenation of strings. *)
#[local] Arguments String.append !_ _ / : simpl nomatch.

(** ** Characters and strings *)

Definition LF : ascii := "010"%char.
Definition CR : ascii := "013"%char.
Definition backslash : ascii := "\"%char.
Definition equals : ascii := "="%char.
Definition slash : ascii := "/"%char.

(** [c] occurs in [s]. *)
Fixpoint contains (c : ascii) (s : string) : bool :=
  match s with
  | EmptyString => false
  | String d r => if Ascii.eqb d c then true else contains c r
  end.

(** The last character of [s] is [c]. *)
Fixpoint ends_with (c : ascii) (s : string) : bool :=
  match s with
  | EmptyString => false
  | String d EmptyString => Ascii.eqb d c
  | String _ r => ends_with c r
  end.

(** How a call ends: it returns, or it panics. *)
Inductive outcome (A : Type) :=
  | Returned (a : A)
  | Panicked (msg : string).
Arguments Returned {A} a.
Arguments Panicked {A} msg.

(** The call returned. *)
Definition returned {A} (o : outcome A) : bool :=
  match o with
  | Returned _ => true
  | Panicked _ => false
  end.

(** Modelled from the spec: [to.EscReturns] of the package [pkg/core/to],
    which is not among the sources.  The spec: values have
    carriage-return and line-feed characters escaped to a two-character
    sequence, so that the format stays line-oriented; every other
    character is written as it is.  [EscReturnsWith cr lf] is that
    function for the two sequences [cr] and [lf]. *)
Fixpoint EscReturnsWith (cr lf : string) (s : string) : string :=
  match s with
  | EmptyString => EmptyString
  | String c r =>
      if Ascii.eqb c CR then cr +:+ EscReturnsWith cr lf r
      else if Ascii.eqb c LF then lf +:+ EscReturnsWith cr lf r
      else String c (EscReturnsWith cr lf r)
  end.

(** Modelled from the spec: [to.EscReturns] itself.  The spec does not
    name the two sequences; they are taken to be a backslash followed by
    [r] and a backslash followed by [n], the notation that the spec uses
    for the two characters. *)
Definition EscReturns : string -> string := EscReturnsWith "\r" "\n".

(** [c] in front of the text that a call returned. *)
Definition prepend (c : ascii) (o : outcome string) : outcome string :=
  match o with
  | Returned t => Returned (String c t)
  | Panicked msg => Panicked msg
  end.

(** Modelled from the spec: [to.UnEscReturns] of [pkg/core/to], which is
    not among the sources.  The spec: values are unescaped symmetrically
    on load, so a backslash followed by [r] or [n] is read back as the
    character it stands for, and every other character is kept; and the
    unescape step panics on malformed input.  At a backslash the
    character after it is looked at: a backslash that ends the text has
    none, and the step panics, the index being out of range. *)
Fixpoint UnEscReturns (s : string) : outcome string :=
  match s with
  | EmptyString => Returned EmptyString
  | String c r =>
      match r with
      | String d r' =>
          if Ascii.eqb c backslash && Ascii.eqb d "n" then prepend LF (UnEscReturns r')
          else if Ascii.eqb c backslash && Ascii.eqb d "r" then prepend CR (UnEscReturns r')
          else prepend c (UnEscReturns r)
      | EmptyString =>
          if Ascii.eqb c backslash then Panicked "index out of range"
          else Returned (String c EmptyString)
      end
  end.

(** Modelled from the spec: [to.Lines] of [pkg/core/to], which is not
    among the sources.  The spec: the text is a sequence of records
    separated by newlines, one per line, each terminated by a newline; so
    the text is cut at every line feed and a final line feed does not
    open one more, empty, line. *)
Fixpoint Lines (s : string) : list string :=
  match s with
  | EmptyString => []
  | String c r =>
      if Ascii.eqb c LF then EmptyString :: Lines r
      else match Lines r with
           | [] => [String c EmptyString]
           | l :: ls => String c l :: ls
           end
  end.

(** [strings.Cut(s, "=")]: the text before and after the first [=]. *)
Fixpoint cut_equals (s : string) : option (string * string) :=
  match s with
  | EmptyString => None
  | String c r =>
      if Ascii.eqb c equals then Some (EmptyString, r)
      else match cut_equals r with
           | Some (a, b) => Some (String c a, b)
           | None => None
           end
  end.

(** [strings.SplitN(line, "=", 2)]: at most two parts, cut at the first
    [=]; a line without [=] is returned whole, as the only part. *)
Definition SplitN_equals_2 (line : string) : list string :=
  match cut_equals line with
  | Some (a, b) => [a; b]
  | None => [line]
  end.

(** ** The store and the world around it *)

(** [type Map struct { sync.Mutex; M map[string]string; File string;
    lastload time.Time }].  Times are natural numbers, [0] being the zero
    [time.Time]. *)
Record Map := mkMap {
  M : gmap string string;
  File : string;
  lastload : nat
}.

(** A regular file: its bytes, its modification time, and whether the
    process may open it for reading. *)
Record file := mkFile {
  data : string;
  modTime : nat;
  readable : bool
}.

(** The file system and the run time: the files by path, the
    directories, the paths that cannot be opened for writing, the clock
    (advanced by every write, so that it also counts the writes), and the
    state of the generator that Go uses to pick the order of a [range]
    over a map. *)
Record World := mkWorld {
  fs : gmap string file;
  dirs : gset string;
  readonly : gset string;
  clock : nat;
  rng : nat
}.

(** Modelled from the spec: the type [NotFound], which [map.go] builds
    as [NotFound{key}] and which is declared outside the sources; the spec
    has it carry the missing key or the pattern.  The other error is the
    [*fs.PathError] of a failed system call, kept as the operation and the
    path. *)
Inductive error :=
  | NotFound (key : string)
  | PathError (op path : string).

(** The order in which [range] visits a map is chosen by the run time
    and differs from one loop to the next: any function of the generator
    state that enumerates the entries. *)
Class MapOrder := {
  range : nat -> gmap string string -> list (string * string);
  range_perm : forall s m, range s m ≡ₚ map_to_list m
}.

(** The package [regexp] of the Go standard library: [Compile] is a
    partial function from patterns to matchers. *)
Class Regexp := {
  Compile : string -> option (string -> bool)
}.

(** ** The monad of the methods of [*Map] *)

(** A method runs on the store and the world and ends with an outcome;
    after a panic nothing more is run. *)
Definition St (A : Type) : Type := Map -> World -> outcome A * Map * World.

Definition ret {A} (a : A) : St A := fun m w => (Returned a, m, w).

Definition panic {A} (msg : string) : St A := fun m w => (Panicked msg, m, w).

Definition bind {A B} (c : St A) (k : A -> St B) : St B :=
  fun m w =>
    let '(r, m', w') := c m w in
    match r with
    | Returned a => k a m' w'
    | Panicked msg => (Panicked msg, m', w')
    end.

Notation "x <- c ;; k" := (bind c (fun x => k))
  (at level 100, c at next level, right associativity).
Notation "c ;;; k" := (bind c (fun _ => k))
  (at level 100, right associativity).

Definition getMap : St Map := fun m w => (Returned m, m, w).
Definition getWorld : St World := fun m w => (Returned w, m, w).
Definition setM (M' : gmap string string) : St unit :=
  fun m w => (Returned tt, mkMap M' (File m) (lastload m), w).
Definition setLastload (t : nat) : St unit :=
  fun m w => (Returned tt, mkMap (M m) (File m) t, w).
Definition putWorld (w' : World) : St unit := fun m _ => (Returned tt, m, w').

(** ** The operating system and the helpers of the repository *)

(** [os.Stat(path)]: the modification time of the file, or an error when
    there is no such file. *)
Definition os_Stat (path : string) : St (nat + error) :=
  w <- getWorld ;;
  match fs w !! path with
  | Some f => ret (inl (modTime f))
  | None => ret (inr (PathError "stat" path))
  end.

(** [os.Open(file)] followed by [io.ReadAll(f)] and [f.Stat()]: the bytes
    and the modification time of the file, or the error of [os.Open].
    Once the file is open, reading it, asking for its time and closing it
    succeed. *)
Definition os_Open_ReadAll_Stat (path : string) : St (string * nat + error) :=
  w <- getWorld ;;
  match fs w !! path with
  | Some f =>
      if readable f then ret (inl (data f, modTime f))
      else ret (inr (PathError "open" path))
  | None => ret (inr (PathError "open" path))
  end.

(** Modelled from the spec: [futil.Overwrite] of [pkg/core/futil], which
    is not among the sources.  The spec: overwrite the file with the given
    content, in one step, and report the underlying error on failure.  A
    file that is not there is created; the write stamps the file with the
    time of the clock, which then advances. *)
Definition Overwrite (path content : string) : St (option error) :=
  w <- getWorld ;;
  if decide (path ∈ readonly w) then ret (Some (PathError "open" path))
  else
    let mode := match fs w !! path with Some f => readable f | None => true end in
    putWorld (mkWorld (<[path := mkFile content (clock w) mode]> (fs w))
                      (dirs w) (readonly w) (S (clock w)) (rng w)) ;;;
    ret None.

(** One step of a [range] loop over [m.M]: the entries in the order the
    run time picks, whose generator moves on. *)
Definition rangeM `{MapOrder} : St (list (string * string)) :=
  m <- getMap ;;
  w <- getWorld ;;
  putWorld (mkWorld (fs w) (dirs w) (readonly w) (clock w) (S (rng w))) ;;;
  ret (range (rng w) (M m)).

(** ** The methods of [Map] *)

(** [const DefaultFileName] *)
Definition DefaultFileName : string := "vars.properties".

Definition nl : string := String LF EmptyString.

(** [func NewMap() *Map] *)
Definition NewMap : Map := mkMap ∅ EmptyString 0.

(** The body of the loop of [UnmarshalText]:
    [parts := strings.SplitN(line, "=", 2);
     if len(parts) == 2 { c.M[parts[0]] = to.UnEscReturns(parts[1]) }].
    When [to.UnEscReturns] panics nothing is assigned. *)
Definition load_line (mp : gmap string string) (line : string)
  : outcome (gmap string string) :=
  match SplitN_equals_2 line with
  | [k; v] =>
      match UnEscReturns v with
      | Returned u => Returned (<[k := u]> mp)
      | Panicked msg => Panicked msg
      end
  | _ => Returned mp
  end.

(** The loop of [UnmarshalText] over the lines: how it ends, and the map
    it leaves, which after a panic is the map with the lines before the
    panic loaded. *)
Fixpoint load_lines (mp : gmap string string) (lines : list string)
  : outcome unit * gmap string string :=
  match lines with
  | [] => (Returned tt, mp)
  | line :: rest =>
      match load_line mp line with
      | Returned mp' => load_lines mp' rest
      | Panicked msg => (Panicked msg, mp)
      end
  end.

(** [func (c *Map) UnmarshalText(in []byte) error] *)
Definition UnmarshalText (input : string) : St (option error) :=
  m <- getMap ;;
  setM (load_lines (M m) (Lines input)).2 ;;;
  match (load_lines (M m) (Lines input)).1 with
  | Returned _ => ret None
  | Panicked msg => panic msg
  end.

(** [func (m *Map) Load(keyvals string) error] *)
Definition Load (keyvals : string) : St (option error) := UnmarshalText keyvals.

(** [func (c *Map) loadFile(file string) (err error)].  The deferred
    [errors.Join(closeerr, err)] leaves the error of the body as it is,
    since closing succeeds. *)
Definition loadFile (path : string) : St (option error) :=
  r <- os_Open_ReadAll_Stat path ;;
  match r with
  | inr e => ret (Some e)
  | inl (buf, mtime) => setLastload mtime ;;; Load buf
  end.

(** [func NewMapFrom(file string)], which returns the new [Map] and the
    error of [loadFile], unless [loadFile] panics. *)
Definition NewMapFrom (path : string) (w : World)
  : Map * outcome (option error) * World :=
  let '(err, m, w') := loadFile path (mkMap ∅ path 0) w in (m, err, w').

(** [func (m *Map) fileHasChanged() bool] *)
Definition fileHasChanged : St bool :=
  m <- getMap ;;
  r <- os_Stat (File m) ;;
  match r with
  | inr _ => ret true
  | inl mtime => ret (Nat.ltb (lastload m) mtime)
  end.

(** [func (m *Map) refresh() error] *)
Definition refresh : St (option error) :=
  changed <- fileHasChanged ;;
  if negb changed then ret None
  else m <- getMap ;; loadFile (File m).

(** [func (m *Map) Data() (string, error)] *)
Definition Data : St (string * option error) :=
  m <- getMap ;;
  r <- os_Open_ReadAll_Stat (File m) ;;
  match r with
  | inr e => ret (EmptyString, Some e)
  | inl (byt, _) => ret (byt, None)
  end.

(** Modelled from the spec: [maps.Clear] of [pkg/core/fn/maps], which is
    not among the sources.  The spec, and the comment of [Map.Clear]: all
    the elements are removed from the map. *)
Definition maps_Clear (mp : gmap string string) : gmap string string := ∅.

(** [func (m *Map) Clear() error] *)
Definition Clear : St (option error) :=
  m <- getMap ;;
  setM (maps_Clear (M m)) ;;;
  ret None.

(** [func (m *Map) Get(key string) (string, error)] *)
Definition Get (key : string) : St (string * option error) :=
  refresh ;;;
  m <- getMap ;;
  match M m !! key with
  | Some val => ret (val, None)
  | None => ret (EmptyString, Some (NotFound key))
  end.

(** [func (m *Map) Match(regx string) (string, error)];
    [regexp.MustCompile] panics when the pattern does not compile. *)
Definition Match `{MapOrder} `{Regexp} (regx : string)
  : St (string * option error) :=
  refresh ;;;
  match Compile regx with
  | None => panic ("regexp: Compile(" +:+ regx +:+ ")")
  | Some x =>
      kvs <- rangeM ;;
      match List.find (fun kv => x kv.1) kvs with
      | Some kv => ret (kv.2, None)
      | None => ret (EmptyString, Some (NotFound regx))
      end
  end.

(** The text that the loop of [MarshalText] builds from the entries in
    the order [kvs]: [out += k + "=" + to.EscReturns(v) + "\n"]. *)
Definition marshal (kvs : list (string * string)) : string :=
  foldl (fun out kv => out +:+ (kv.1 +:+ "=" +:+ EscReturns kv.2 +:+ nl))
        EmptyString kvs.

(** [func (c Map) MarshalText() ([]byte, error)] *)
Definition MarshalText `{MapOrder} : St (string * option error) :=
  kvs <- rangeM ;;
  ret (marshal kvs, None).

(** [func (m *Map) save() error] *)
Definition save `{MapOrder} : St (option error) :=
  r <- MarshalText ;;
  match r.2 with
  | Some err => ret (Some err)
  | None => m <- getMap ;; Overwrite (File m) r.1
  end.

(** [func (m *Map) Set(key, val string) error] *)
Definition Set_ `{MapOrder} (key val : string) : St (option error) :=
  refresh ;;;
  m <- getMap ;;
  match M m !! key with
  | Some cur =>
      if String.eqb val cur then ret None
      else setM (<[key := val]> (M m)) ;;; save
  | None => setM (<[key := val]> (M m)) ;;; save
  end.

(** [func (m *Map) Delete(key string) error] *)
Definition Delete `{MapOrder} (key : string) : St (option error) :=
  err <- refresh ;;
  match err with
  | Some e => ret (Some e)
  | None =>
      m <- getMap ;;
      setM (delete key (M m)) ;;;
      save
  end.

(** ** Initialisation *)

(** What [Init] needs from outside the package: [run.RealExeStateDir],
    which gives the state directory of the executable or an error, and
    [filepath.Join] of the Go standard library. *)
Class ExeEnv := {
  RealExeStateDir : string + error;
  filepath_Join : string -> string -> string
}.

(** [func (m *Map) defaultFile() (string, error)] *)
Definition defaultFile `{ExeEnv} : St (string * option error) :=
  match RealExeStateDir with
  | inr err => ret (EmptyString, Some err)
  | inl dir => ret (filepath_Join dir DefaultFileName, None)
  end.

(** Modelled from the spec: [futil.Exists] of [pkg/core/futil], which is
    not among the sources.  The spec: does the path exist. *)
Definition futil_Exists (path : string) : St bool :=
  w <- getWorld ;;
  match fs w !! path with
  | Some _ => ret true
  | None => ret false
  end.

(** The directories above a path: the parts of it that stand before a
    slash, the root and doubled slashes left aside; [pre] is the part of
    the path already read. *)
Fixpoint ancestors_after (pre rest : string) : list string :=
  match rest with
  | EmptyString => []
  | String c r =>
      (if Ascii.eqb c slash && negb (Nat.eqb (String.length pre) 0)
          && negb (ends_with slash pre)
       then [pre] else [])
      ++ ancestors_after (pre +:+ String c EmptyString) r
  end.

Definition ancestors (path : string) : list string :=
  ancestors_after EmptyString path.

(** Modelled from the spec: [futil.Touch] of [pkg/core/futil], which is
    not among the sources.  The spec: create an empty file at the path,
    creating parent directories as needed, and report the underlying
    error on failure, in which case nothing is created here.  [Init]
    calls it only when there is no file at the path; a file that is there
    keeps its content and gets the time of the clock. *)
Definition futil_Touch (path : string) : St (option error) :=
  w <- getWorld ;;
  if decide (path ∈ readonly w) then ret (Some (PathError "open" path))
  else
    let f := match fs w !! path with
             | Some f => mkFile (data f) (clock w) (readable f)
             | None => mkFile EmptyString (clock w) true
             end in
    putWorld (mkWorld (<[path := f]> (fs w))
                      (dirs w ∪ list_to_set (ancestors path))
                      (readonly w) (S (clock w)) (rng w)) ;;;
    ret None.

(** [func (m *Map) Init() error] *)
Definition Init `{ExeEnv} : St (option error) :=
  m <- getMap ;;
  r <- (if Nat.eqb (String.length (File m)) 0 then defaultFile
        else ret (File m, None)) ;;
  match r.2 with
  | Some err => ret (Some err)
  | None =>
      found <- futil_Exists r.1 ;;
      if found then ret None else futil_Touch r.1
  end.

(** ** Vocabulary of the statements *)

(** The line that [MarshalText] writes for an entry, without its final
    line feed. *)
Definition line_of (kv : string * string) : string :=
  kv.1 +:+ "=" +:+ EscReturns kv.2.

(** The serialization format as the spec words it: one line per entry,
    the key, an [=], the escaped value, each terminated by a line feed;
    here for the entries in the order [kvs]. *)
Fixpoint records_text (kvs : list (string * string)) : string :=
  match kvs with
  | [] => EmptyString
  | kv :: rest =>
      kv.1 +:+ String equals (EscReturns kv.2 +:+ String LF (records_text rest))
  end.

(** A key that the file format can carry: no [=] and no line feed. *)
Definition plain_key (k : string) : bool :=
  negb (contains equals k) && negb (contains LF k).

(** A value in which no backslash is followed by [n] or by [r], that is,
    which does not already hold one of the two escape sequences. *)
Fixpoint escape_free (s : string) : bool :=
  match s with
  | EmptyString => true
  | String c r =>
      match r with
      | String d _ =>
          negb (Ascii.eqb c backslash && (Ascii.eqb d "n" || Ascii.eqb d "r"))
      | EmptyString => true
      end && escape_free r
  end.

(** The keys of the records of a text: what stands before the first [=]
    of each line that has one. *)
Definition keys_of_text (text : string) : list string :=
  omap (fun line => fst <$> cut_equals line) (Lines text).

(** No record of the lines has a value that ends in a backslash: the
    unescape step panics on none of them. *)
Definition sound_lines (lines : list string) : bool :=
  forallb (fun line =>
             match cut_equals line with
             | Some (_, v) => negb (ends_with backslash v)
             | None => true
             end) lines.

(** The number of writes that took the world from [w] to [w']. *)
Definition writes (w w' : World) : nat := clock w' - clock w.

(** The store is unchanged on disk: same files, same directories, same
    times. *)
Definition same_disk (w w' : World) : Prop :=
  fs w' = fs w /\ dirs w' = dirs w /\ clock w' = clock w.

(** An order of iteration, to run the operations on examples: the order
    of [map_to_list]. *)
Definition listed_order : MapOrder :=
  {| range := fun _ m => map_to_list m;
     range_perm := fun _ m => reflexivity (map_to_list m) |}.

(** [p] occurs somewhere in [s]. *)
Fixpoint occurs (p s : string) : bool :=
  match s with
  | EmptyString => String.prefix p EmptyString
  | String _ r => String.prefix p s || occurs p r
  end.

(** The depth of parentheses stays at or above zero and ends at zero. *)
Fixpoint balanced (depth : nat) (s : string) : bool :=
  match s with
  | EmptyString => Nat.eqb depth 0
  | String c r =>
      if Ascii.eqb c "(" then balanced (S depth) r
      else if Ascii.eqb c ")" then
        match depth with 0 => false | S d => balanced d r end
      else balanced depth r
  end.

(** A stand-in for [regexp.Compile], to run [Match] on examples: like
    Go, it rejects a pattern whose parentheses do not match; every other
    pattern is read as a literal that may occur anywhere in the key.  The
    theorems below hold for every [Regexp]. *)
Definition literal_regexp : Regexp :=
  {| Compile := fun p => if balanced 0 p then Some (occurs p) else None |}.

(** A world with no file at all. *)
Definition empty_world : World := mkWorld ∅ ∅ ∅ 1 0.

(** A backslash followed by [n]: two characters, no line feed. *)
Definition backslash_n : string := String backslash "n".

(** A backslash alone. *)
Definition lone_backslash : string := String backslash EmptyString.

(** Every key of the map is plain. *)
Definition plain_keys (mp : gmap string string) : Prop :=
  map_Forall (fun k _ => plain_key k = true) mp.

(** Every value of the map is escape-free. *)
Definition escape_free_values (mp : gmap string string) : Prop :=
  map_Forall (fun _ v => escape_free v = true) mp.

(** No value of the map ends in a backslash. *)
Definition no_final_backslash (mp : gmap string string) : Prop :=
  map_Forall (fun _ v => ends_with backslash v = false) mp.

(** How the load of a text into the map [mp] ends, as [loadFile] and
    [refresh] report it. *)
Definition load_outcome (mp : gmap string string) (text : string)
  : outcome (option error) :=
  match (load_lines mp (Lines text)).1 with
  | Returned _ => Returned None
  | Panicked msg => Panicked msg
  end.

(** The store after [loadFile] has read the file [f]: the time of the
    file is kept, and the records of the file are merged into the map, up
    to the first one on which the unescape step panics, if any. *)
Definition reloaded (m : Map) (f : file) : Map :=
  mkMap (load_lines (M m) (Lines (data f))).2 (File m) (modTime f).

(** The store with its map replaced. *)
Definition with_M (m : Map) (mp : gmap string string) : Map :=
  mkMap mp (File m) (lastload m).

(** The world after one [range] loop, and after a [range] loop followed
    by a successful [Overwrite] of [path] with [text]. *)
Definition ranged (w : World) : World :=
  mkWorld (fs w) (dirs w) (readonly w) (clock w) (S (rng w)).

Definition written (w : World) (path text : string) : World :=
  mkWorld (<[path := mkFile text (clock w)
                       match fs w !! path with Some f => readable f | None => true end]>
             (fs w))
          (dirs w) (readonly w) (S (clock w)) (S (rng w)).

(** The world after [futil.Touch] created an empty file at [path]. *)
Definition touched (w : World) (path : string) : World :=
  mkWorld (<[path := mkFile EmptyString (clock w) true]> (fs w))
          (dirs w ∪ list_to_set (ancestors path))
          (readonly w) (S (clock w)) (rng w).

(** [refresh] has nothing to load: there is no file, or it cannot be
    read, or it is not newer than the last load. *)
Definition settled (m : Map) (w : World) : Prop :=
  match fs w !! File m with
  | None => True
  | Some f => readable f = false \/ modTime f <= lastload m
  end.

(** The value part, still escaped, of the last line of [lines] that is a
    record for the key [k]. *)
Fixpoint record_of (k : string) (lines : list string) : option string :=
  match lines with
  | [] => None
  | line :: rest =>
      match record_of k rest with
      | Some x => Some x
      | None =>
          match cut_equals line with
          | Some (a, b) => if String.eqb a k then Some b else None
          | None => None
          end
      end
  end.

(** The text that the unescape step returns, if it returns. *)
Definition unescaped (x : string) : option string :=
  match UnEscReturns x with
  | Returned u => Some u
  | Panicked _ => None
  end.

(** What [Get(k)] answers from a map. *)
Definition answer (mp : gmap string string) (k : string) : string * option error :=
  match mp !! k with
  | Some val => (val, None)
  | None => (EmptyString, Some (NotFound k))
  end.

(** What the records of a text say about [k], over a map [mp] that they
    are merged into. *)
Definition merged_lookup (mp : gmap string string) (text k : string) : option string :=
  match record_of k (Lines text) with
  | Some x => unescaped x
  | None => mp !! k
  end.

(** What stands after the last line feed of a key: the key that the
    line written for an entry is read back under. *)
Fixpoint last_fragment (k : string) : string :=
  match k with
  | EmptyString => EmptyString
  | String c r =>
      if contains LF k then last_fragment r else k
  end.

(** What a value is read back as, once written. *)
Definition read_back (v : string) : string :=
  match UnEscReturns (EscReturns v) with
  | Returned u => u
  | Panicked _ => v
  end.

(** No key of the map holds an [=] and no value ends in a backslash:
    the text written from such a map is read back without a panic. *)
Definition reads_back (mp : gmap string string) : Prop :=
  map_Forall (fun k v => contains equals k = false /\ ends_with backslash v = false) mp.

(** The map that the loop of [UnmarshalText] builds from the text
    written for the entries [kvs], when it does not panic: each entry is
    read back under the last line of its key. *)
Definition read_entries (mp : gmap string string) (kvs : list (string * string))
  : gmap string string :=
  foldl (fun mp kv => <[last_fragment kv.1 := read_back kv.2]> mp) mp kvs.

(** The path that [Init] makes sure of. *)
Definition init_target `{ExeEnv} (m : Map) : string + error :=
  if Nat.eqb (String.length (File m)) 0 then
    match RealExeStateDir with
    | inr err => inr err
    | inl dir => inl (filepath_Join dir DefaultFileName)
    end
  else inl (File m).

(** An environment to run [Init] on examples: the state directory is
    [/state], and paths are joined with a slash. *)
Definition state_env : ExeEnv :=
  {| RealExeStateDir := inl "/state";
     filepath_Join := fun dir name => dir +:+ "/" +:+ name |}.

(** ** Scenarios *)

(** [Set(k, v)] and then [Get(k)]: how it ends. *)
Definition set_get `{MapOrder} (k v : string) (m : Map) (w : World)
  : outcome (string * option error) :=
  ((Set_ k v ;;; Get k) m w).1.1.

(** [Set(k, v)], then the process starts again: the map in memory is
    gone, [NewMapFrom] loads the backing file, and [Get(k)] is asked. *)
Definition set_restart_get `{MapOrder} (k v : string) (m : Map) (w : World)
  : outcome (string * option error) :=
  let '(r1, m1, w1) := Set_ k v m w in
  match r1 with
  | Panicked msg => Panicked msg
  | Returned _ =>
      let '(m2, r2, w2) := NewMapFrom (File m1) w1 in
      match r2 with
      | Panicked msg => Panicked msg
      | Returned _ => (Get k m2 w2).1.1
      end
  end.


(** A new store on the file [vars.properties], nothing loaded yet. *)
Definition fresh_store : Map := mkMap ∅ DefaultFileName 0.

(** A store that holds one entry, on the same file. *)
Definition store_with (k v : string) : Map := mkMap {[ k := v ]} DefaultFileName 0.

(** A key of two lines: [x], a line feed, [k]. *)
Definition two_line_key : string := "x" +:+ nl +:+ "k".

(** The value [line1], carriage return, line feed, [line2]. *)
Definition two_line_value : string := "line1" +:+ String CR nl +:+ "line2".

(** A world whose only file is the backing file, with the given text,
    readable and writable. *)
Definition world_with_file (text : string) : World :=
  mkWorld {[ DefaultFileName := mkFile text 1 true ]} ∅ ∅ 2 0.

(** The same world with the backing file write-protected, and no file. *)
Definition locked_world : World := mkWorld ∅ ∅ {[ DefaultFileName ]} 1 0.

(** * The completers

    [pkg/completers/cmds.go] and the file completer of the package
    [comp].  Both lean on packages that are kept as parameters here. *)

Module Completers.

(** The interface [bonzai.Command], as far as [Complete] uses it.  A
    completer is called as [c.Complete(x, args...)]. *)
Class Command (Cmd : Type) := {
  GetComp : Cmd -> option (Cmd -> list string -> list string);
  GetName : Cmd -> string;
  GetCommandNames : Cmd -> list string;
  GetParams : Cmd -> list string;
  GetShortcuts : Cmd -> list string;
  GetHidden : Cmd -> list string
}.

(** The two helpers of the packages [pkg/set] and [pkg/fn/filt], which
    are not among the sources: [set.MinusAsString] is left open;
    [filt.HasPrefix] is read as the name says and as the comment of
    [Complete] has it, the strings of the list that begin with the
    prefix, in their order. *)
Class Helpers := {
  MinusAsString : list string -> list string -> list string
}.

Definition HasPrefix (strs : list string) (pre : string) : list string :=
  List.filter (String.prefix pre) strs.

(** [func (cmds) Complete(x bonzai.Command, args ...string) []string] *)
Definition Complete {Cmd} `{Command Cmd} `{Helpers} (x : Cmd) (args : list string)
  : list string :=
  match GetComp x with
  | Some c => c x args
  | None =>
      if Nat.eqb (List.length args) 0 then [GetName x]
      else
        let strs := List.app [] (GetCommandNames x) in
        let strs := List.app strs (GetParams x) in
        let strs := List.app strs (GetShortcuts x) in
        let strs := MinusAsString strs (GetHidden x) in
        if Nat.eqb (List.length args) 0 then strs
        else HasPrefix strs (List.nth 0 args EmptyString)
  end.

End Completers.

Module Comp.

(** What the completer [File] uses of the packages [rwxrob/fs],
    [rwxrob/fs/dir] and [rwxrob/fn/filt]: the entries of a directory,
    whether a path is a directory, and the two filters. *)
Class FileSystem := {
  Entries : string -> list string;
  IsDir : string -> bool;
  HasPrefix : list string -> string -> list string;
  BaseHasPrefix : list string -> string -> list string
}.

(** [strings.TrimRight(s, "/")]: [s] without its final slashes. *)
Fixpoint TrimRight_slash (s : string) : string :=
  match s with
  | EmptyString => EmptyString
  | String c r =>
      match TrimRight_slash r with
      | EmptyString => if Ascii.eqb c slash then EmptyString else String c EmptyString
      | t => String c t
      end
  end.

(** [filepath.Split(path)]: the path is cut right after its last
    slash; with no slash the directory part is empty. *)
Fixpoint Split (path : string) : string * string :=
  match path with
  | EmptyString => (EmptyString, EmptyString)
  | String c r =>
      match Split r with
      | (EmptyString, f) =>
          if Ascii.eqb c slash then (String c EmptyString, f)
          else (EmptyString, String c f)
      | (d, f) => (String c d, f)
      end
  end.

(** The final loop of [File], run for at most [fuel] rounds ([None]
    when they do not suffice):
    [for { list := filt.BaseHasPrefix(dir.Entries(d), pre);
           if len(list) > 1 { return list };
           if fs.IsDir(list[0]) { d = list[0]; continue };
           return list }].
    [list[0]] panics on the empty list. *)
Fixpoint File_loop `{FileSystem} (fuel : nat) (d pre : string)
  : option (outcome (list string)) :=
  match fuel with
  | 0 => None
  | S fuel' =>
      let strs := BaseHasPrefix (Entries d) pre in
      if Nat.ltb 1 (List.length strs) then Some (Returned strs)
      else
        match strs with
        | [] => Some (Panicked "index out of range [0] with length 0")
        | e :: _ =>
            if IsDir e then File_loop fuel' e pre
            else Some (Returned strs)
        end
  end.

(** [func File(x Command, args ...string) []string].  [x] is [None]
    for the nil interface and otherwise gives its name; [args] is
    [None] for the nil slice of a call without arguments. *)
Definition File `{FileSystem} (fuel : nat) (x : option string)
    (args : option (list string)) : option (outcome (list string)) :=
  let len := match args with Some l => List.length l | None => 0 end in
  let arg0 := match args with Some (a :: _) => a | _ => EmptyString end in
  if Nat.ltb 1 len then Some (Returned [])
  else if match args with None => true | Some _ => false end
          || (Nat.ltb 0 len && String.eqb arg0 EmptyString)
  then Some (Returned (Entries "."))
  else if Nat.eqb len 0 then
    match x with
    | Some name => Some (Returned [name])
    | None => Some (Returned (Entries EmptyString))
    end
  else
    let first := TrimRight_slash arg0 in
    let '(d, pre) := Split first in
    if String.eqb d EmptyString then
      let strs := HasPrefix (Entries ".") pre in
      match strs with
      | [e] => if IsDir e then Some (Returned (Entries e)) else Some (Returned strs)
      | _ => Some (Returned strs)
      end
    else File_loop fuel d pre.

(** A file system to run [File] on examples: the directory [docs/]
    holds only the directory [docs/api/], which holds the two files
    [docs/api/a.md] and [docs/api/b.md]; the filters keep the entries
    whose name, or whose last component, begins with the prefix. *)
Definition base (path : string) : string := (Split (TrimRight_slash path)).2.

Definition docs_tree : FileSystem :=
  {| Entries := fun d =>
       if String.eqb d "docs/" then ["docs/api/"]
       else if String.eqb d "docs/api/" then ["docs/api/a.md"; "docs/api/b.md"]
       else [];
     IsDir := fun p => String.eqb p "docs/" || String.eqb p "docs/api/";
     HasPrefix := fun l pre => List.filter (String.prefix pre) l;
     BaseHasPrefix := fun l pre => List.filter (fun p => String.prefix pre (base p)) l |}.

End Comp.

(** A command to run [Complete] on examples: the commands [build] and
    [bench], the parameter [all], no shortcut, [bench] hidden, no
    completer; and the set difference for [set.MinusAsString]. *)
Definition demo_command : Completers.Command unit :=
  {| Completers.GetComp := fun _ => None;
     Completers.GetName := fun _ => "demo";
     Completers.GetCommandNames := fun _ => ["build"; "bench"];
     Completers.GetParams := fun _ => ["all"];
     Completers.GetShortcuts := fun _ => [];
     Completers.GetHidden := fun _ => ["bench"] |}.

Definition minus_helpers : Completers.Helpers :=
  {| Completers.MinusAsString := fun strs min =>
       List.filter (fun s => negb (existsb (String.eqb s) min)) strs |}.


(** * Properties *)

(** ** Strings *)

Lemma append_nil_r (s : string) : s +:+ EmptyString = s.
Proof. induction s as [|c s IH]; simpl; [done | by rewrite IH]. Qed.

Lemma append_assoc (a b c : string) : (a +:+ b) +:+ c = a +:+ (b +:+ c).
Proof. induction a as [|x a IH]; simpl; [done | by rewrite IH]. Qed.

Lemma contains_app (c : ascii) (a b : string) :
  contains c (a +:+ b) = contains c a || contains c b.
Proof.
  induction a as [|x a IH]; simpl; [done |].
  destruct (Ascii.eqb x c); [done | exact IH].
Qed.

Lemma ends_with_cons (c d : ascii) (s : string) :
  ends_with c (String d s) =
    match s with
    | EmptyString => Ascii.eqb d c
    | String _ _ => ends_with c s
    end.
Proof. by destruct s. Qed.

(** Nothing is rewritten in a text that has neither of the two
    characters. *)
Lemma EscReturnsWith_id (cr lf s : string) :
  contains CR s = false -> contains LF s = false -> EscReturnsWith cr lf s = s.
Proof.
  induction s as [|c s IH]; simpl; [done |].
  destruct (Ascii.eqb c CR); [done |].
  destruct (Ascii.eqb c LF); [done |].
  intros H1 H2. by rewrite IH.
Qed.

(** Whatever the two sequences are, as long as they are free of the two
    characters, the sequence for the line feed is written both for the
    line feed and for itself: no reader can tell the two apart. *)
Lemma EscReturnsWith_collision (cr lf : string) :
  contains CR lf = false -> contains LF lf = false ->
  EscReturnsWith cr lf lf = EscReturnsWith cr lf nl.
Proof.
  intros H1 H2. rewrite EscReturnsWith_id by done.
  simpl. by rewrite append_nil_r.
Qed.

Lemma EscReturns_no_LF (v : string) : contains LF (EscReturns v) = false.
Proof.
  unfold EscReturns. induction v as [|c v IH]; simpl; [done |].
  destruct (Ascii.eqb c CR) eqn:Ec; [exact IH |].
  destruct (Ascii.eqb c LF) eqn:El; [exact IH |].
  simpl. by rewrite El.
Qed.

Lemma UnEscReturns_cons2 (c d : ascii) (r : string) :
  UnEscReturns (String c (String d r)) =
    if Ascii.eqb c backslash && Ascii.eqb d "n" then prepend LF (UnEscReturns r)
    else if Ascii.eqb c backslash && Ascii.eqb d "r" then prepend CR (UnEscReturns r)
    else prepend c (UnEscReturns (String d r)).
Proof. reflexivity. Qed.

Lemma EscReturns_cons (c : ascii) (v : string) :
  EscReturns (String c v) =
    if Ascii.eqb c CR then String backslash (String "r" (EscReturns v))
    else if Ascii.eqb c LF then String backslash (String "n" (EscReturns v))
    else String c (EscReturns v).
Proof. reflexivity. Qed.

Lemma EscReturns_nil_inv (v : string) : EscReturns v = EmptyString -> v = EmptyString.
Proof.
  destruct v as [|c v]; [done |]. rewrite EscReturns_cons.
  destruct (Ascii.eqb c CR); [done |]. by destruct (Ascii.eqb c LF).
Qed.

(** The unescape step panics on the texts that end in a backslash, and
    on no other. *)
Lemma UnEscReturns_returned (s : string) :
  returned (UnEscReturns s) = negb (ends_with backslash s).
Proof.
  remember (String.length s) as n eqn:Hn. revert s Hn.
  induction n as [n IH] using lt_wf_ind. intros s Hn.
  destruct s as [|c [|d r]]; [done | |].
  { simpl. by destruct (Ascii.eqb c backslash). }
  assert (Hr : returned (UnEscReturns r) = negb (ends_with backslash r)).
  { apply (IH (String.length r)); [simpl in Hn; lia | done]. }
  assert (Hdr : returned (UnEscReturns (String d r))
                = negb (ends_with backslash (String d r))).
  { apply (IH (String.length (String d r))); [simpl in Hn |- *; lia | done]. }
  assert (Hpre : forall a o, returned (prepend a o) = returned o) by by intros a [].
  rewrite UnEscReturns_cons2, (ends_with_cons backslash c).
  destruct (Ascii.eqb c backslash && Ascii.eqb d "n") eqn:E1.
  { rewrite Hpre, Hr. apply andb_true_iff in E1 as [_ Ed].
    apply Ascii.eqb_eq in Ed as ->. by destruct r. }
  destruct (Ascii.eqb c backslash && Ascii.eqb d "r") eqn:E2.
  { rewrite Hpre, Hr. apply andb_true_iff in E2 as [_ Ed].
    apply Ascii.eqb_eq in Ed as ->. by destruct r. }
  by rewrite Hpre, Hdr.
Qed.

Lemma UnEscReturns_sound (s : string) :
  ends_with backslash s = false -> exists u, UnEscReturns s = Returned u.
Proof.
  intros Hs. pose proof (UnEscReturns_returned s) as Hr. rewrite Hs in Hr.
  destruct (UnEscReturns s) as [u|]; [by exists u | done].
Qed.

Lemma EscReturns_ends (v : string) :
  ends_with backslash (EscReturns v) = ends_with backslash v.
Proof.
  induction v as [|c v IH]; [done |].
  rewrite EscReturns_cons, (ends_with_cons backslash c v).
  destruct (Ascii.eqb_spec c CR) as [->|Hcr].
  { rewrite ends_with_cons, ends_with_cons.
    destruct v as [|d v]; [done |]. rewrite <- IH.
    destruct (EscReturns (String d v)) eqn:He; [| done].
    by apply EscReturns_nil_inv in He. }
  destruct (Ascii.eqb_spec c LF) as [->|Hlf].
  { rewrite ends_with_cons, ends_with_cons.
    destruct v as [|d v]; [done |]. rewrite <- IH.
    destruct (EscReturns (String d v)) eqn:He; [| done].
    by apply EscReturns_nil_inv in He. }
  rewrite ends_with_cons.
  destruct v as [|d v]; [done |]. rewrite <- IH.
  destruct (EscReturns (String d v)) eqn:He; [| done].
  by apply EscReturns_nil_inv in He.
Qed.

(** Reading back what was escaped gives the value, when the value holds
    no escape sequence of its own and does not end in a backslash. *)
Lemma UnEscReturns_EscReturns (v : string) :
  escape_free v = true -> ends_with backslash v = false ->
  UnEscReturns (EscReturns v) = Returned v.
Proof.
  induction v as [|c v IH]; [done |].
  intros Hf He.
  assert (Hv : escape_free v = true).
  { simpl in Hf. apply andb_true_iff in Hf. tauto. }
  destruct v as [|d v'].
  { rewrite EscReturns_cons.
    destruct (Ascii.eqb_spec c CR) as [->|Hcr]; [done |].
    destruct (Ascii.eqb_spec c LF) as [->|Hlf]; [done |].
    simpl in He |- *. by rewrite He. }
  rewrite ends_with_cons in He. specialize (IH Hv He).
  rewrite EscReturns_cons.
  destruct (Ascii.eqb_spec c CR) as [->|Hcr].
  { rewrite UnEscReturns_cons2. simpl. by rewrite IH. }
  destruct (Ascii.eqb_spec c LF) as [->|Hlf].
  { rewrite UnEscReturns_cons2. simpl. by rewrite IH. }
  rewrite EscReturns_cons in *.
  assert (Hcd : Ascii.eqb c backslash && (Ascii.eqb d "n" || Ascii.eqb d "r") = false).
  { simpl in Hf. apply andb_true_iff in Hf as [Hf _]. by apply negb_true_iff in Hf. }
  destruct (Ascii.eqb_spec d CR) as [->|Hdcr].
  { rewrite UnEscReturns_cons2.
    destruct (Ascii.eqb c backslash); cbn [andb Ascii.eqb Bool.eqb]; by rewrite IH. }
  destruct (Ascii.eqb_spec d LF) as [->|Hdlf].
  { rewrite UnEscReturns_cons2.
    destruct (Ascii.eqb c backslash); cbn [andb Ascii.eqb Bool.eqb]; by rewrite IH. }
  rewrite UnEscReturns_cons2.
  destruct (Ascii.eqb c backslash); simpl in Hcd; cbn [andb].
  - apply orb_false_iff in Hcd as [-> ->]. by rewrite IH.
  - by rewrite IH.
Qed.

Lemma read_back_id (v : string) :
  escape_free v = true -> ends_with backslash v = false -> read_back v = v.
Proof. intros Hf He. unfold read_back. by rewrite UnEscReturns_EscReturns. Qed.

Lemma read_back_spec (v : string) :
  ends_with backslash v = false ->
  UnEscReturns (EscReturns v) = Returned (read_back v).
Proof.
  intros He. unfold read_back.
  destruct (UnEscReturns_sound (EscReturns v)) as [u ->]; [| done].
  by rewrite EscReturns_ends.
Qed.

Lemma escape_free_cons2 (c d : ascii) (r : string) :
  escape_free (String c (String d r)) =
    negb (Ascii.eqb c backslash && (Ascii.eqb d "n" || Ascii.eqb d "r"))
    && escape_free (String d r).
Proof. reflexivity. Qed.

Lemma UnEscReturns_head (d : ascii) (r : string) (u : string) :
  UnEscReturns (String d r) = Returned u ->
  exists e t, u = String e t /\ (e = d \/ e = LF \/ e = CR).
Proof.
  assert (Hpre : forall a o, prepend a o = Returned u ->
            exists t, u = String a t).
  { intros a [t|msg]; simpl; [| done]. intros [= <-]. by exists t. }
  destruct r as [|d' r'].
  { simpl. destruct (Ascii.eqb d backslash); [done |].
    intros [= <-]. exists d, EmptyString. auto. }
  rewrite UnEscReturns_cons2.
  destruct (Ascii.eqb d backslash && Ascii.eqb d' "n").
  { intros [t ->]%Hpre. exists LF, t. auto. }
  destruct (Ascii.eqb d backslash && Ascii.eqb d' "r").
  { intros [t ->]%Hpre. exists CR, t. auto. }
  intros [t ->]%Hpre. exists d, t. auto.
Qed.

(** A text that the unescape step returns holds no escape sequence and
    does not end in a backslash. *)
Lemma UnEscReturns_clean (s u : string) :
  UnEscReturns s = Returned u ->
  escape_free u = true /\ ends_with backslash u = false.
Proof.
  remember (String.length s) as n eqn:Hn. revert s u Hn.
  induction n as [n IH] using lt_wf_ind. intros s u Hn.
  destruct s as [|c [|d r]].
  { by intros [= <-]. }
  { simpl. destruct (Ascii.eqb c backslash) eqn:Ec; [done |].
    intros [= <-]. simpl. by rewrite Ec. }
  assert (Hr : forall t, UnEscReturns r = Returned t ->
            escape_free t = true /\ ends_with backslash t = false).
  { intros t. apply (IH (String.length r)); [simpl in Hn; lia | done]. }
  assert (Hdr : forall t, UnEscReturns (String d r) = Returned t ->
            escape_free t = true /\ ends_with backslash t = false).
  { intros t. apply (IH (String.length (String d r))); [simpl in Hn |- *; lia | done]. }
  rewrite UnEscReturns_cons2.
  destruct (Ascii.eqb c backslash && Ascii.eqb d "n") eqn:E1.
  { destruct (UnEscReturns r) as [t|] eqn:Ht; simpl; [| done].
    intros [= <-]. destruct (Hr t eq_refl) as [H1 H2].
    destruct t as [|e t]; [done |].
    by rewrite escape_free_cons2, ends_with_cons, H1, H2. }
  destruct (Ascii.eqb c backslash && Ascii.eqb d "r") eqn:E2.
  { destruct (UnEscReturns r) as [t|] eqn:Ht; simpl; [| done].
    intros [= <-]. destruct (Hr t eq_refl) as [H1 H2].
    destruct t as [|e t]; [done |].
    by rewrite escape_free_cons2, ends_with_cons, H1, H2. }
  destruct (UnEscReturns (String d r)) as [t|] eqn:Ht; simpl; [| done].
  intros [= <-]. destruct (Hdr t eq_refl) as [H1 H2].
  destruct (UnEscReturns_head d r t Ht) as (e & t' & -> & He).
  rewrite escape_free_cons2, ends_with_cons, H1, H2, andb_true_r.
  split; [| done]. apply negb_true_iff.
  destruct (Ascii.eqb c backslash); [| done].
  simpl in E1, E2 |- *.
  destruct He as [->|[->| ->]]; [by rewrite E1, E2 | done | done].
Qed.

(** A text free of line feeds, followed by a line feed, is one line. *)
Lemma Lines_line (s rest : string) :
  contains LF s = false -> Lines (s +:+ String LF rest) = s :: Lines rest.
Proof.
  induction s as [|c s IH]; simpl; [done |].
  destruct (Ascii.eqb c LF); [done |].
  intros H. by rewrite IH.
Qed.

Lemma cut_equals_key (k x : string) :
  contains equals k = false -> cut_equals (k +:+ String equals x) = Some (k, x).
Proof.
  induction k as [|c k IH]; simpl; [done |].
  destruct (Ascii.eqb c equals); [done |].
  intros H. by rewrite IH.
Qed.

Lemma cut_equals_None (s : string) :
  cut_equals s = None <-> contains equals s = false.
Proof.
  induction s as [|c s IH]; simpl; [done |].
  destruct (Ascii.eqb c equals); [done |].
  destruct (cut_equals s) as [[a b]|]; [| tauto].
  split; [done |]. intros H. apply IH in H. done.
Qed.

Lemma plain_key_spec (k : string) :
  plain_key k = true <-> contains equals k = false /\ contains LF k = false.
Proof.
  unfold plain_key. rewrite andb_true_iff, !negb_true_iff. done.
Qed.

Lemma last_fragment_plain (k : string) :
  contains LF k = false -> last_fragment k = k.
Proof. destruct k as [|c k]; [done |]. simpl. by intros ->. Qed.

Lemma last_fragment_app_LF (a b : string) :
  last_fragment (a +:+ String LF b) = last_fragment b.
Proof.
  induction a as [|c a IH].
  - change (EmptyString +:+ String LF b) with (String LF b).
    cbn [last_fragment]. by simpl.
  - change (String c a +:+ String LF b) with (String c (a +:+ String LF b)).
    cbn [last_fragment].
    assert (H : contains LF (String c (a +:+ String LF b)) = true).
    { simpl. destruct (Ascii.eqb c LF); [done |].
      rewrite contains_app. simpl. apply orb_true_r. }
    by rewrite H.
Qed.

Lemma last_fragment_no_LF (k : string) : contains LF (last_fragment k) = false.
Proof.
  induction k as [|c k IH]; [done |].
  cbn [last_fragment]. destruct (contains LF (String c k)) eqn:Hc; done.
Qed.

Lemma contains_last_fragment (c : ascii) (k : string) :
  contains c k = false -> contains c (last_fragment k) = false.
Proof.
  induction k as [|d k IH]; [done |].
  cbn [last_fragment]. destruct (contains LF (String d k)); [| done].
  simpl. destruct (Ascii.eqb d c); [done |]. exact IH.
Qed.

(** ** The text that [MarshalText] builds *)

Lemma marshal_acc (acc : string) (kvs : list (string * string)) :
  foldl (fun out kv => out +:+ (kv.1 +:+ "=" +:+ EscReturns kv.2 +:+ nl)) acc kvs
  = acc +:+ marshal kvs.
Proof.
  unfold marshal. revert acc.
  induction kvs as [|kv kvs IH]; intros acc; cbn [foldl].
  - by rewrite append_nil_r.
  - rewrite IH. rewrite (IH (EmptyString +:+ _)).
    by rewrite !append_assoc.
Qed.

Lemma marshal_cons (kv : string * string) (kvs : list (string * string)) :
  marshal (kv :: kvs) = line_of kv +:+ String LF (marshal kvs).
Proof.
  unfold marshal at 1. cbn [foldl]. rewrite marshal_acc.
  unfold line_of, nl. rewrite !append_assoc. reflexivity.
Qed.

(** The loop of [MarshalText] builds the text of the format. *)
Lemma marshal_records_text (kvs : list (string * string)) :
  marshal kvs = records_text kvs.
Proof.
  induction kvs as [|kv kvs IH]; [done |].
  rewrite marshal_cons, IH. unfold line_of. cbn [records_text].
  rewrite !append_assoc. reflexivity.
Qed.

Lemma line_of_no_LF (kv : string * string) :
  contains LF kv.1 = false -> contains LF (line_of kv) = false.
Proof.
  intros H. unfold line_of.
  rewrite !contains_app, H, EscReturns_no_LF. reflexivity.
Qed.

(** The text written for entries whose keys are free of line feeds is
    read back as one line per entry. *)
Lemma Lines_marshal (kvs : list (string * string)) :
  Forall (fun kv => contains LF kv.1 = false) kvs ->
  Lines (marshal kvs) = line_of <$> kvs.
Proof.
  induction 1 as [|kv kvs Hkv _ IH]; [done |].
  rewrite marshal_cons, Lines_line by by apply line_of_no_LF.
  by rewrite IH.
Qed.

(** ** The loop of [UnmarshalText] *)

Lemma load_line_cut (mp : gmap string string) (line k v : string) :
  cut_equals line = Some (k, v) ->
  load_line mp line =
    match UnEscReturns v with
    | Returned u => Returned (<[k := u]> mp)
    | Panicked msg => Panicked msg
    end.
Proof. intros H. unfold load_line, SplitN_equals_2. by rewrite H. Qed.

Lemma load_line_skip (mp : gmap string string) (line : string) :
  contains equals line = false -> load_line mp line = Returned mp.
Proof.
  intros H. apply cut_equals_None in H.
  unfold load_line, SplitN_equals_2. by rewrite H.
Qed.

(** The cases of one round of the loop. *)
Lemma load_lines_cons (mp : gmap string string) (line : string) (rest : list string) :
  load_lines mp (line :: rest) =
    match cut_equals line with
    | Some (k, v) =>
        match UnEscReturns v with
        | Returned u => load_lines (<[k := u]> mp) rest
        | Panicked msg => (Panicked msg, mp)
        end
    | None => load_lines mp rest
    end.
Proof.
  cbn [load_lines].
  destruct (cut_equals line) as [[k v]|] eqn:Hcut.
  - rewrite (load_line_cut _ _ _ _ Hcut). by destruct (UnEscReturns v).
  - by rewrite load_line_skip by by apply cut_equals_None.
Qed.

(** A key that no line sets keeps its entry, or its absence, also when
    the loop panics. *)
Lemma load_lines_other (lines : list string) (mp : gmap string string) (k : string) :
  k ∉ omap (fun line => fst <$> cut_equals line) lines ->
  (load_lines mp lines).2 !! k = mp !! k.
Proof.
  revert mp. induction lines as [|line lines IH]; intros mp Hk; [done |].
  rewrite load_lines_cons. simpl in Hk.
  destruct (cut_equals line) as [[a b]|] eqn:Hcut; simpl in Hk.
  - apply not_elem_of_cons in Hk as [Hne Hk].
    destruct (UnEscReturns b) as [u|msg]; [| done].
    rewrite IH by done. by rewrite lookup_insert_ne.
  - by apply IH.
Qed.

(** When the loop returns, a key has what its last record says. *)
Lemma load_lines_lookup (lines : list string) (mp : gmap string string) (k : string) :
  (load_lines mp lines).1 = Returned tt ->
  (load_lines mp lines).2 !! k =
    match record_of k lines with
    | Some x => unescaped x
    | None => mp !! k
    end.
Proof.
  revert mp. induction lines as [|line lines IH]; intros mp; [done |].
  rewrite load_lines_cons. cbn [record_of].
  destruct (cut_equals line) as [[a b]|] eqn:Hcut.
  - destruct (UnEscReturns b) as [u|msg] eqn:Hu; [| done].
    intros Hret. rewrite (IH _ Hret).
    destruct (record_of k lines) as [x|]; [done |].
    destruct (String.eqb_spec a k) as [->|Hne].
    + unfold unescaped. by rewrite Hu, lookup_insert_eq.
    + by rewrite lookup_insert_ne.
  - intros Hret. rewrite (IH _ Hret). by destruct (record_of k lines).
Qed.

(** The loop panics when the value of some record ends in a backslash,
    and only then. *)
Lemma load_lines_returned (lines : list string) (mp : gmap string string) :
  returned (load_lines mp lines).1 = sound_lines lines.
Proof.
  revert mp. induction lines as [|line lines IH]; intros mp; [done |].
  rewrite load_lines_cons. cbn [sound_lines forallb].
  destruct (cut_equals line) as [[a b]|] eqn:Hcut.
  - pose proof (UnEscReturns_returned b) as Hb.
    destruct (UnEscReturns b) as [u|msg]; simpl in Hb; rewrite <- Hb; [| done].
    simpl. apply IH.
  - simpl. apply IH.
Qed.

Lemma load_lines_sound (lines : list string) (mp : gmap string string) :
  sound_lines lines = true -> (load_lines mp lines).1 = Returned tt.
Proof.
  intros Hs. pose proof (load_lines_returned lines mp) as Hr. rewrite Hs in Hr.
  by destruct (load_lines mp lines).1 as [[]|].
Qed.

(** The lines without an [=] do not count. *)
Lemma load_lines_filter (lines : list string) (mp : gmap string string) :
  load_lines mp lines = load_lines mp (List.filter (contains equals) lines).
Proof.
  revert mp. induction lines as [|line lines IH]; intros mp; [done |].
  cbn [List.filter]. destruct (contains equals line) eqn:He.
  - rewrite !load_lines_cons.
    destruct (cut_equals line) as [[a b]|]; [| apply IH].
    destruct (UnEscReturns b); [apply IH | done].
  - rewrite load_lines_cons.
    apply cut_equals_None in He. rewrite He. apply IH.
Qed.

(** Running the loop again over the same lines: when the first run
    returned, the second returns too and changes nothing. *)
Lemma load_lines_twice (lines : list string) (mp : gmap string string) :
  (load_lines mp lines).1 = Returned tt ->
  load_lines (load_lines mp lines).2 lines = (Returned tt, (load_lines mp lines).2).
Proof.
  intros Hret.
  assert (Hs : sound_lines lines = true).
  { rewrite <- (load_lines_returned lines mp). by rewrite Hret. }
  pose proof (load_lines_sound lines (load_lines mp lines).2 Hs) as Hret2.
  rewrite (surjective_pairing (load_lines (load_lines mp lines).2 lines)).
  f_equal; [exact Hret2 |].
  apply map_eq. intros k.
  rewrite (load_lines_lookup lines (load_lines mp lines).2 k Hret2).
  rewrite (load_lines_lookup lines mp k Hret).
  by destruct (record_of k lines).
Qed.

(** ** Shape of what is loaded *)

Lemma Lines_no_LF (s line : string) : line ∈ Lines s -> contains LF line = false.
Proof.
  revert line. induction s as [|c s IH]; intros line; simpl.
  { intros Hin. by apply elem_of_nil in Hin. }
  destruct (Ascii.eqb c LF) eqn:Ec.
  - intros [->|Hin]%elem_of_cons; [done | by apply IH].
  - destruct (Lines s) as [|l ls].
    + intros ->%list_elem_of_singleton. simpl. by rewrite Ec.
    + intros [->|Hin]%elem_of_cons.
      * simpl. rewrite Ec. apply IH. by left.
      * apply IH. by right.
Qed.

Lemma cut_equals_plain (line a b : string) :
  cut_equals line = Some (a, b) -> contains LF line = false -> plain_key a = true.
Proof.
  revert a. induction line as [|c line IH]; intros a; simpl; [done |].
  destruct (Ascii.eqb c equals) eqn:Ee.
  - by intros [= <- <-].
  - destruct (cut_equals line) as [[a' b']|]; [| done].
    intros [= <- <-]. destruct (Ascii.eqb c LF) eqn:El; [done |].
    intros Hl. specialize (IH a' eq_refl Hl).
    apply plain_key_spec in IH as [IH1 IH2].
    apply plain_key_spec. simpl. by rewrite Ee, El.
Qed.

Lemma plain_keys_insert (mp : gmap string string) (k v : string) :
  plain_key k = true -> plain_keys mp -> plain_keys (<[k := v]> mp).
Proof. intros Hk Hmp. by apply map_Forall_insert_2. Qed.

Lemma plain_keys_delete (mp : gmap string string) (k : string) :
  plain_keys mp -> plain_keys (delete k mp).
Proof. apply map_Forall_delete. Qed.

(** Whatever the text and however the loop ends, the keys stay plain,
    the values escape-free and without a final backslash. *)
Lemma load_lines_shape (lines : list string) (mp : gmap string string) :
  Forall (fun line => contains LF line = false) lines ->
  (plain_keys mp -> plain_keys (load_lines mp lines).2) /\
  (escape_free_values mp -> escape_free_values (load_lines mp lines).2) /\
  (no_final_backslash mp -> no_final_backslash (load_lines mp lines).2).
Proof.
  intros Hl. revert mp.
  induction Hl as [|line lines Hline _ IH]; intros mp; [done |].
  rewrite load_lines_cons.
  destruct (cut_equals line) as [[a b]|] eqn:Hcut; [| apply IH].
  destruct (UnEscReturns b) as [u|msg] eqn:Hu; [| done].
  destruct (UnEscReturns_clean b u Hu) as [Hfree Hend].
  destruct (IH (<[a:=u]> mp)) as (H1 & H2 & H3).
  split; [| split]; intros Hmp.
  - apply H1, plain_keys_insert; [| done]. by eapply cut_equals_plain.
  - apply H2. by apply map_Forall_insert_2.
  - apply H3. by apply map_Forall_insert_2.
Qed.

Lemma load_text_shape (text : string) (mp : gmap string string) :
  (plain_keys mp -> plain_keys (load_lines mp (Lines text)).2) /\
  (escape_free_values mp -> escape_free_values (load_lines mp (Lines text)).2) /\
  (no_final_backslash mp -> no_final_backslash (load_lines mp (Lines text)).2).
Proof.
  apply load_lines_shape, Forall_forall. intros line. apply Lines_no_LF.
Qed.

(** ** Reading back what [MarshalText] wrote *)

(** The lines written for one entry whose key has no [=] and whose
    value does not end in a backslash load as one record, under the last
    line of the key; [pre] is a part of the key already read, free of
    line feeds. *)
Lemma load_chunk (key pre val rest : string) (mp : gmap string string) :
  contains LF pre = false -> contains equals pre = false ->
  contains equals key = false -> ends_with backslash val = false ->
  load_lines mp
    (Lines ((pre +:+ key) +:+ String equals (EscReturns val +:+ String LF rest)))
  = load_lines (<[last_fragment (pre +:+ key) := read_back val]> mp) (Lines rest).
Proof.
  intros Hpl Hpe Hke Hv. revert pre Hpl Hpe.
  induction key as [|c key IH]; intros pre Hpl Hpe.
  - rewrite append_nil_r.
    replace (pre +:+ String equals (EscReturns val +:+ String LF rest))
      with ((pre +:+ String equals (EscReturns val)) +:+ String LF rest)
      by (rewrite append_assoc; reflexivity).
    rewrite Lines_line.
    + rewrite load_lines_cons, cut_equals_key by done.
      rewrite read_back_spec by done. by rewrite last_fragment_plain.
    + rewrite contains_app, Hpl. simpl. apply EscReturns_no_LF.
  - simpl in Hke. destruct (Ascii.eqb c equals) eqn:Ece; [done |].
    destruct (Ascii.eqb_spec c LF) as [->|Hc].
    + rewrite last_fragment_app_LF.
      replace ((pre +:+ String LF key)
               +:+ String equals (EscReturns val +:+ String LF rest))
        with (pre +:+ String LF
                (key +:+ String equals (EscReturns val +:+ String LF rest)))
        by (rewrite append_assoc; reflexivity).
      rewrite Lines_line by done.
      rewrite load_lines_cons.
      apply cut_equals_None in Hpe. rewrite Hpe.
      apply (IH Hke EmptyString); done.
    + replace (pre +:+ String c key) with ((pre +:+ String c EmptyString) +:+ key)
        by (rewrite append_assoc; reflexivity).
      apply (IH Hke).
      * rewrite contains_app, Hpl. simpl. apply Ascii.eqb_neq in Hc. by rewrite Hc.
      * rewrite contains_app, Hpe. simpl. by rewrite Ece.
Qed.

Lemma load_entry (key val rest : string) (mp : gmap string string) :
  contains equals key = false -> ends_with backslash val = false ->
  load_lines mp (Lines (key +:+ String equals (EscReturns val +:+ String LF rest)))
  = load_lines (<[last_fragment key := read_back val]> mp) (Lines rest).
Proof. intros Hk Hv. by apply (load_chunk key EmptyString). Qed.

(** The text written for entries whose keys have no [=] and whose values
    do not end in a backslash loads without a panic. *)
Lemma load_marshal (kvs : list (string * string)) (mp : gmap string string) :
  Forall (fun kv => contains equals kv.1 = false /\ ends_with backslash kv.2 = false)
    kvs ->
  load_lines mp (Lines (marshal kvs)) = (Returned tt, read_entries mp kvs).
Proof.
  intros Hall. revert mp.
  induction Hall as [|kv kvs [Hk Hv] _ IH]; intros mp; [done |].
  rewrite marshal_cons. unfold line_of.
  change ("=" +:+ ?x) with (String equals x). rewrite append_assoc.
  change (String equals (EscReturns kv.2) +:+ ?x)
    with (String equals (EscReturns kv.2 +:+ x)).
  rewrite load_entry by done.
  unfold read_entries. cbn [foldl]. apply IH.
Qed.

Lemma read_entries_other (kvs : list (string * string)) (mp : gmap string string)
    (k : string) :
  (forall kv, kv ∈ kvs -> last_fragment kv.1 <> k) ->
  read_entries mp kvs !! k = mp !! k.
Proof.
  unfold read_entries. revert mp.
  induction kvs as [|kv kvs IH]; intros mp Hno; [done |].
  cbn [foldl]. rewrite IH.
  - rewrite lookup_insert_ne; [done |]. apply Hno. by left.
  - intros kv' Hin. apply Hno. by right.
Qed.

Lemma read_entries_found (kvs : list (string * string)) (mp : gmap string string)
    (kv : string * string) (k : string) :
  kv ∈ kvs -> last_fragment kv.1 = k ->
  (forall kv', kv' ∈ kvs -> last_fragment kv'.1 = k -> kv' = kv) ->
  read_entries mp kvs !! k = Some (read_back kv.2).
Proof.
  intros Hin Hk Huniq. revert mp Hin Huniq.
  induction kvs as [|kv0 kvs IH]; intros mp Hin Huniq.
  { by apply elem_of_nil in Hin. }
  unfold read_entries. cbn [foldl]. fold (read_entries (<[last_fragment kv0.1 := read_back kv0.2]> mp) kvs).
  destruct (decide (kv ∈ kvs)) as [Hin'|Hnot].
  - apply IH; [done |]. intros kv' Hkv'. apply Huniq. by right.
  - apply elem_of_cons in Hin as [->|Hin]; [| done].
    rewrite read_entries_other.
    + by rewrite Hk, lookup_insert_eq.
    + intros kv' Hkv' Hk'. apply Hnot.
      rewrite <- (Huniq kv'); [done | by right | done].
Qed.

Section Reload.
Context (mp : gmap string string) (kvs : list (string * string)).
Hypothesis Hperm : kvs ≡ₚ map_to_list mp.

Lemma reload_returns (base : gmap string string) :
  reads_back mp ->
  load_lines base (Lines (marshal kvs)) = (Returned tt, read_entries base kvs).
Proof.
  intros Hmp. apply load_marshal, Forall_forall. intros [k v] Hin.
  rewrite Hperm in Hin. apply elem_of_map_to_list in Hin.
  exact (Hmp k v Hin).
Qed.

(** An entry under a key that no other entry is read back under. *)
Lemma reload_entry (base : gmap string string) (k v : string) :
  mp !! k = Some v -> contains LF k = false ->
  (forall k' v', mp !! k' = Some v' -> last_fragment k' = k -> k' = k) ->
  read_entries base kvs !! k = Some (read_back v).
Proof.
  intros Hk Hplain Huniq.
  apply (read_entries_found kvs base (k, v) k).
  - rewrite Hperm. by apply elem_of_map_to_list.
  - by apply last_fragment_plain.
  - intros [k' v'] Hin Hfrag. simpl in Hfrag.
    rewrite Hperm in Hin. apply elem_of_map_to_list in Hin.
    assert (k' = k) as -> by by eapply Huniq.
    congruence.
Qed.

(** A key that no entry is read back under. *)
Lemma reload_untouched (base : gmap string string) (k : string) :
  (forall k' v', mp !! k' = Some v' -> last_fragment k' <> k) ->
  read_entries base kvs !! k = base !! k.
Proof.
  intros Hno. apply read_entries_other. intros [k' v'] Hin. simpl.
  rewrite Hperm in Hin. apply elem_of_map_to_list in Hin. by eapply Hno.
Qed.

(** With plain keys, escape-free values and no final backslash, the
    text read back into an empty map gives the map itself. *)
Lemma reload_exact :
  plain_keys mp -> escape_free_values mp -> no_final_backslash mp ->
  read_entries ∅ kvs = mp.
Proof.
  intros Hplain Hfree Hend. apply map_eq. intros k.
  destruct (mp !! k) as [v|] eqn:Hk.
  - rewrite (reload_entry ∅ k v Hk).
    + by rewrite read_back_id; [| exact (Hfree k v Hk) | exact (Hend k v Hk)].
    + pose proof (Hplain k v Hk) as Hp. apply plain_key_spec in Hp. tauto.
    + intros k' v' Hk' Hfrag.
      pose proof (Hplain k' v' Hk') as Hp. apply plain_key_spec in Hp.
      rewrite last_fragment_plain in Hfrag; tauto.
  - rewrite reload_untouched; [apply lookup_empty |].
    intros k' v' Hk' Hfrag.
    pose proof (Hplain k' v' Hk') as Hp. apply plain_key_spec in Hp.
    rewrite last_fragment_plain in Hfrag; [congruence | tauto].
Qed.
End Reload.

Lemma reads_back_plain (mp : gmap string string) :
  plain_keys mp -> no_final_backslash mp -> reads_back mp.
Proof.
  intros Hp He k v Hk. split; [| exact (He k v Hk)].
  pose proof (Hp k v Hk) as H. apply plain_key_spec in H. tauto.
Qed.

Lemma reads_back_insert (mp : gmap string string) (k v : string) :
  contains equals k = false -> ends_with backslash v = false ->
  reads_back mp -> reads_back (<[k := v]> mp).
Proof. intros Hk Hv Hmp. by apply map_Forall_insert_2. Qed.

(** The last line of a key that has no [=] is a plain key. *)
Lemma last_fragment_is_plain (k : string) :
  contains equals k = false -> plain_key (last_fragment k) = true.
Proof.
  intros Hk. apply plain_key_spec. split.
  - by apply contains_last_fragment.
  - apply last_fragment_no_LF.
Qed.

(** ** The operations, step by step *)

Lemma Load_eq (text : string) (m : Map) (w : World) :
  Load text m w =
    (load_outcome (M m) text, with_M m (load_lines (M m) (Lines text)).2, w).
Proof.
  unfold Load, UnmarshalText, load_outcome, bind, getMap, setM, ret, panic, with_M.
  by destruct (load_lines (M m) (Lines text)).1.
Qed.

Lemma loadFile_eq (path : string) (m : Map) (w : World) :
  loadFile path m w =
    match fs w !! path with
    | Some f =>
        if readable f then (load_outcome (M m) (data f), reloaded m f, w)
        else (Returned (Some (PathError "open" path)), m, w)
    | None => (Returned (Some (PathError "open" path)), m, w)
    end.
Proof.
  unfold loadFile, os_Open_ReadAll_Stat, bind, ret, getWorld, setLastload.
  destruct (fs w !! path) as [f|]; [| done].
  destruct (readable f); [| done].
  rewrite Load_eq. reflexivity.
Qed.

Lemma refresh_eq (m : Map) (w : World) :
  refresh m w =
    match fs w !! File m with
    | None => (Returned (Some (PathError "open" (File m))), m, w)
    | Some f =>
        if Nat.ltb (lastload m) (modTime f) then
          if readable f then (load_outcome (M m) (data f), reloaded m f, w)
          else (Returned (Some (PathError "open" (File m))), m, w)
        else (Returned None, m, w)
    end.
Proof.
  unfold refresh, fileHasChanged, os_Stat, bind, ret, getMap, getWorld.
  destruct (fs w !! File m) as [f|] eqn:Hf; cbn [negb].
  - destruct (Nat.ltb (lastload m) (modTime f)); cbn [negb]; [| done].
    by rewrite loadFile_eq, Hf.
  - by rewrite loadFile_eq, Hf.
Qed.

(** The four ways through [refresh]: the file is read, it cannot be
    read, it is not newer, it is not there. *)
Ltac refresh_cases m w f :=
  rewrite (refresh_eq m w);
  destruct (fs w !! File m) as [f|];
  [ destruct (Nat.ltb (lastload m) (modTime f));
    [ destruct (readable f) | ] | ].

Lemma refresh_world (m : Map) (w : World) : (refresh m w).2 = w.
Proof. refresh_cases m w f; done. Qed.

Lemma refresh_File (m : Map) (w : World) : File (refresh m w).1.2 = File m.
Proof. refresh_cases m w f; done. Qed.

(** After [refresh] there is nothing left to load. *)
Lemma refresh_settles (m : Map) (w : World) : settled (refresh m w).1.2 w.
Proof.
  rewrite refresh_eq. unfold settled.
  destruct (fs w !! File m) as [f|] eqn:Hf; simpl; [| by rewrite Hf].
  destruct (Nat.ltb_spec (lastload m) (modTime f)) as [Hlt|Hge].
  - destruct (readable f) eqn:Hr; simpl; rewrite Hf; [right; done | left; done].
  - simpl. rewrite Hf. by right.
Qed.

(** With nothing to load, [refresh] returns and leaves the store as it
    is. *)
Lemma refresh_settled (m : Map) (w : World) :
  settled m w -> returned (refresh m w).1.1 = true /\ (refresh m w).1.2 = m.
Proof.
  unfold settled. rewrite refresh_eq.
  destruct (fs w !! File m) as [f|]; [| done].
  intros [Hr|Hle].
  - rewrite Hr. by destruct (Nat.ltb _ _).
  - destruct (Nat.ltb_spec (lastload m) (modTime f)); [lia | done].
Qed.

Lemma settled_ext (m m' : Map) (w w' : World) :
  File m' = File m -> lastload m' = lastload m -> fs w' = fs w ->
  settled m w -> settled m' w'.
Proof. unfold settled. by intros -> -> ->. Qed.

(** A [refresh] that does not return no error has loaded nothing. *)
Lemma refresh_error_keeps (m : Map) (w : World) (e : error) :
  (refresh m w).1.1 = Returned (Some e) -> (refresh m w).1.2 = m.
Proof.
  refresh_cases m w f; try done.
  cbn [fst snd]. unfold load_outcome.
  by destruct (load_lines (M m) (Lines (data f))).1.
Qed.

(** Whatever [refresh] does, the keys stay plain, the values escape-free
    and without a final backslash. *)
Lemma refresh_shape (m : Map) (w : World) :
  (plain_keys (M m) -> plain_keys (M (refresh m w).1.2)) /\
  (escape_free_values (M m) -> escape_free_values (M (refresh m w).1.2)) /\
  (no_final_backslash (M m) -> no_final_backslash (M (refresh m w).1.2)).
Proof.
  refresh_cases m w f; try done.
  cbn [fst snd reloaded M]. apply load_text_shape.
Qed.

Lemma Get_eq (key : string) (m : Map) (w : World) :
  Get key m w =
    (match (refresh m w).1.1 with
     | Returned _ => Returned (answer (M (refresh m w).1.2) key)
     | Panicked msg => Panicked msg
     end, (refresh m w).1.2, w).
Proof.
  unfold Get, bind, getMap, ret, answer.
  pose proof (refresh_world m w) as Hw.
  destruct (refresh m w) as [[e m0] w0]; simpl in *; subst w0.
  destruct e; [| done]. by destruct (M m0 !! key).
Qed.

Lemma MarshalText_eq `{MapOrder} (m : Map) (w : World) :
  MarshalText m w = (Returned (marshal (range (rng w) (M m)), None), m, ranged w).
Proof. reflexivity. Qed.

Lemma save_eq `{MapOrder} (m : Map) (w : World) :
  save m w =
    if decide (File m ∈ readonly w)
    then (Returned (Some (PathError "open" (File m))), m, ranged w)
    else (Returned None, m, written w (File m) (marshal (range (rng w) (M m)))).
Proof.
  unfold save, MarshalText, rangeM, Overwrite, bind, getMap, getWorld, putWorld, ret.
  simpl. by destruct (decide (File m ∈ readonly w)).
Qed.

Lemma Set_eq `{MapOrder} (key val : string) (m : Map) (w : World) :
  Set_ key val m w =
    match (refresh m w).1.1 with
    | Panicked msg => (Panicked msg, (refresh m w).1.2, w)
    | Returned _ =>
        if decide (M (refresh m w).1.2 !! key = Some val)
        then (Returned None, (refresh m w).1.2, w)
        else save (with_M (refresh m w).1.2 (<[key := val]> (M (refresh m w).1.2))) w
    end.
Proof.
  unfold Set_, bind, getMap, setM, ret.
  pose proof (refresh_world m w) as Hw.
  destruct (refresh m w) as [[e m0] w0]; simpl in *; subst w0.
  destruct e as [e|msg]; [| done].
  destruct (M m0 !! key) as [cur|] eqn:Hcur.
  - destruct (String.eqb_spec val cur) as [->|Hne].
    + by rewrite decide_True.
    + rewrite decide_False; [done | congruence].
  - by rewrite decide_False.
Qed.

Lemma Delete_eq `{MapOrder} (key : string) (m : Map) (w : World) :
  Delete key m w =
    match (refresh m w).1.1 with
    | Panicked msg => (Panicked msg, (refresh m w).1.2, w)
    | Returned (Some e) => (Returned (Some e), (refresh m w).1.2, w)
    | Returned None =>
        save (with_M (refresh m w).1.2 (delete key (M (refresh m w).1.2))) w
    end.
Proof.
  unfold Delete, bind, getMap, setM, ret.
  pose proof (refresh_world m w) as Hw.
  destruct (refresh m w) as [[e m0] w0]; simpl in *; subst w0.
  destruct e as [[e|]|msg]; done.
Qed.

Lemma Match_eq `{MapOrder} `{Regexp} (regx : string) (m : Map) (w : World) :
  Match regx m w =
    match (refresh m w).1.1 with
    | Panicked msg => (Panicked msg, (refresh m w).1.2, w)
    | Returned _ =>
        match Compile regx with
        | None =>
            (Panicked ("regexp: Compile(" +:+ regx +:+ ")"), (refresh m w).1.2, w)
        | Some x =>
            (Returned
               match List.find (fun kv => x kv.1)
                       (range (rng w) (M (refresh m w).1.2)) with
               | Some kv => (kv.2, None)
               | None => (EmptyString, Some (NotFound regx))
               end, (refresh m w).1.2, ranged w)
        end
    end.
Proof.
  unfold Match, bind, rangeM, getMap, getWorld, putWorld, ret, panic.
  pose proof (refresh_world m w) as Hw.
  destruct (refresh m w) as [[e m0] w0]; simpl in *; subst w0.
  destruct e as [e|msg]; [| done].
  destruct (Compile regx) as [x|]; [| done].
  by destruct (List.find _ _).
Qed.

Lemma Data_eq (m : Map) (w : World) :
  Data m w =
    (Returned
       match fs w !! File m with
       | Some f =>
           if readable f then (data f, None)
           else (EmptyString, Some (PathError "open" (File m)))
       | None => (EmptyString, Some (PathError "open" (File m)))
       end, m, w).
Proof.
  unfold Data, os_Open_ReadAll_Stat, bind, ret, getMap, getWorld.
  destruct (fs w !! File m) as [f|]; [| done]. by destruct (readable f).
Qed.

Lemma Init_eq `{ExeEnv} (m : Map) (w : World) :
  Init m w =
    match init_target m with
    | inr err => (Returned (Some err), m, w)
    | inl p =>
        match fs w !! p with
        | Some _ => (Returned None, m, w)
        | None =>
            if decide (p ∈ readonly w)
            then (Returned (Some (PathError "open" p)), m, w)
            else (Returned None, m, touched w p)
        end
    end.
Proof.
  unfold Init, init_target, defaultFile, futil_Exists, futil_Touch, touched,
    bind, ret, getMap, getWorld, putWorld.
  destruct (Nat.eqb (String.length (File m)) 0).
  - destruct RealExeStateDir as [dir|err]; [| done]. cbn [fst snd].
    destruct (fs w !! filepath_Join dir DefaultFileName) eqn:Hf; rewrite ?Hf; [done |].
    by destruct (decide (filepath_Join dir DefaultFileName ∈ readonly w)).
  - cbn [fst snd].
    destruct (fs w !! File m) eqn:Hf; rewrite ?Hf; [done |].
    by destruct (decide (File m ∈ readonly w)).
Qed.

Lemma written_lookup (w : World) (path text : string) :
  fs (written w path text) !! path =
    Some (mkFile text (clock w)
            match fs w !! path with Some f => readable f | None => true end).
Proof. unfold written. cbn [fs]. apply lookup_insert_eq. Qed.

Lemma written_lookup_ne (w : World) (path text p : string) :
  p <> path -> fs (written w path text) !! p = fs w !! p.
Proof. intros Hne. unfold written. cbn [fs]. by apply lookup_insert_ne. Qed.

Lemma range_singleton `{MapOrder} (s : nat) (k v : string) :
  range s {[ k := v ]} = [(k, v)].
Proof.
  apply Permutation_singleton_r. rewrite range_perm.
  by rewrite map_to_list_singleton.
Qed.

Lemma find_none_all {A} (f : A -> bool) (l : list A) :
  (forall x, x ∈ l -> f x = false) -> List.find f l = None.
Proof.
  induction l as [|a l IH]; intros Hall; [done |].
  simpl. rewrite (Hall a) by by left.
  apply IH. intros x Hx. apply Hall. by right.
Qed.

(** ** After [save] *)

(** The [refresh] that follows a [save], for a store whose text reads
    back: it does not panic, and the map is the one the store had or that
    map with its own entries read back into it. *)
Lemma refresh_after_written `{MapOrder} (m : Map) (w : World) :
  reads_back (M m) ->
  returned (refresh m (written w (File m) (marshal (range (rng w) (M m))))).1.1
  = true /\
  (M (refresh m (written w (File m) (marshal (range (rng w) (M m))))).1.2 = M m \/
   M (refresh m (written w (File m) (marshal (range (rng w) (M m))))).1.2
   = read_entries (M m) (range (rng w) (M m))).
Proof.
  intros Hrb. rewrite refresh_eq, written_lookup. cbn [modTime readable].
  destruct (Nat.ltb _ _); [| by split; [| left]].
  destruct (match fs w !! File m with Some f => readable f | None => true end);
    [| by split; [| left]].
  cbn [fst snd reloaded M data]. unfold load_outcome. cbn [data].
  rewrite (reload_returns (M m) _ (range_perm _ _)) by done.
  split; [done | by right].
Qed.

(** After it, an entry with an escape-free value under a key without
    line feed that no other key ends in is still there. *)
Lemma refresh_after_written_entry `{MapOrder} (m : Map) (w : World) (k v : string) :
  reads_back (M m) ->
  M m !! k = Some v -> contains LF k = false -> escape_free v = true ->
  (forall k' v', M m !! k' = Some v' -> last_fragment k' = k -> k' = k) ->
  M (refresh m (written w (File m) (marshal (range (rng w) (M m))))).1.2 !! k
  = Some v.
Proof.
  intros Hrb Hk Hlf Hfree Huniq.
  destruct (refresh_after_written m w Hrb) as [_ [-> | ->]]; [done |].
  rewrite (reload_entry (M m) _ (range_perm _ _) (M m) k v) by done.
  rewrite read_back_id; [done | done |]. exact (proj2 (Hrb k v Hk)).
Qed.

(** After it, a key that no entry is read back under has what it had. *)
Lemma refresh_after_written_untouched `{MapOrder} (m : Map) (w : World) (k : string) :
  reads_back (M m) ->
  (forall k' v', M m !! k' = Some v' -> last_fragment k' <> k) ->
  M (refresh m (written w (File m) (marshal (range (rng w) (M m))))).1.2 !! k
  = M m !! k.
Proof.
  intros Hrb Hno.
  destruct (refresh_after_written m w Hrb) as [_ [-> | ->]]; [done |].
  by rewrite (reload_untouched (M m) _ (range_perm _ _)).
Qed.

(** In a map with plain keys every key is read back under itself. *)
Lemma plain_keys_fragment (mp : gmap string string) (k' v' : string) :
  plain_keys mp -> mp !! k' = Some v' -> last_fragment k' = k'.
Proof.
  intros Hp Hk'. apply last_fragment_plain.
  pose proof (Hp k' v' Hk') as H. apply plain_key_spec in H. tauto.
Qed.

(** What [Set(k, v)] leaves behind when its [refresh] does not panic,
    the keys of the store are plain, [k] has no [=], no value ends in a
    backslash, and [v] is escape-free unless [k] has a line feed: [Set]
    returns, the entry is in the map, and the next [refresh] returns and
    keeps it. *)
Lemma Set_result `{MapOrder} (k v : string) (m : Map) (w : World) :
  returned (refresh m w).1.1 = true ->
  plain_keys (M m) -> no_final_backslash (M m) ->
  contains equals k = false -> ends_with backslash v = false ->
  (contains LF k = false -> escape_free v = true) ->
  returned (Set_ k v m w).1.1 = true /\
  M (Set_ k v m w).1.2 !! k = Some v /\
  returned (refresh (Set_ k v m w).1.2 (Set_ k v m w).2).1.1 = true /\
  M (refresh (Set_ k v m w).1.2 (Set_ k v m w).2).1.2 !! k = Some v.
Proof.
  intros Hret Hplain Hend Hk Hv Hfree. rewrite Set_eq.
  destruct (refresh_shape m w) as (Hp0 & _ & He0).
  specialize (Hp0 Hplain). specialize (He0 Hend).
  pose proof (refresh_settles m w) as Hset.
  set (m0 := (refresh m w).1.2) in *.
  destruct (refresh m w).1.1 as [e|msg]; [| done].
  destruct (decide (M m0 !! k = Some v)) as [Hcur|Hcur].
  - cbn [fst snd]. destruct (refresh_settled m0 w Hset) as [Hr ->]. done.
  - rewrite save_eq. cbn [File with_M].
    destruct (decide (File m0 ∈ readonly w)) as [Hro|Hrw]; cbn [fst snd].
    + assert (Hs : settled (with_M m0 (<[k:=v]> (M m0))) (ranged w))
        by by apply (settled_ext m0 _ w).
      destruct (refresh_settled _ _ Hs) as [Hr ->].
      cbn [M with_M]. by rewrite lookup_insert_eq.
    + assert (Hrb : reads_back (M (with_M m0 (<[k:=v]> (M m0))))).
      { apply reads_back_insert; [done | done |]. by apply reads_back_plain. }
      split; [done |]. split; [apply lookup_insert_eq |].
      split; [apply (refresh_after_written (with_M m0 (<[k:=v]> (M m0))) w Hrb) |].
      destruct (contains LF k) eqn:Hlf.
      * rewrite (refresh_after_written_untouched (with_M m0 (<[k:=v]> (M m0))) w k Hrb).
        { apply lookup_insert_eq. }
        intros k' v' _ Heq.
        pose proof (last_fragment_no_LF k') as Hno. rewrite Heq in Hno. congruence.
      * apply (refresh_after_written_entry (with_M m0 (<[k:=v]> (M m0))) w k v Hrb);
          [apply lookup_insert_eq | done | by apply Hfree |].
        intros k' v' Hk' Hfrag. cbn [M with_M] in Hk'.
        destruct (decide (k' = k)) as [->|Hne]; [done |].
        rewrite lookup_insert_ne in Hk' by done.
        by rewrite (plain_keys_fragment (M m0) k' v') in Hfrag.
Qed.

(** When no record of the lines has a value that ends in a backslash,
    the value of the record for a key unescapes. *)
Lemma record_of_unescapes (lines : list string) (k x : string) :
  sound_lines lines = true -> record_of k lines = Some x ->
  exists u, UnEscReturns x = Returned u.
Proof.
  induction lines as [|line lines IH]; [done |].
  cbn [sound_lines forallb record_of]. intros [Hl Hs]%andb_prop Hx.
  destruct (record_of k lines) as [y|]; [by apply IH |].
  destruct (cut_equals line) as [[a b]|]; [| done].
  destruct (String.eqb a k); [| done].
  injection Hx as ->.
  pose proof (UnEscReturns_returned x) as Hr. rewrite <- Hr in Hl.
  destruct (UnEscReturns x) as [u|msg]; [by exists u | done].
Qed.

(** * The claims *)

(** C1, as stated, fails at four inputs.  (1) The value made of a
    backslash and the letter [n] is written as it is and read back as a
    line feed: [Set] then [Get] returns the line feed.  (2) A key with a
    line feed in it and no [=] is written over two lines: after a restart
    the key is not found.  (3) With such a key in the store, the line that
    its second half forms overwrites the entry of the key [k]: [Set] then
    [Get] returns the value of the other entry.  (4) The value made of one
    backslash is written as it is, and the [Get] that follows panics while
    it reads the file back. *)
Lemma C1_roundtrip_counterexample :
  (contains equals "k" = false /\
   set_get (H := listed_order) "k" backslash_n fresh_store empty_world
   = Returned (nl, None) /\ nl <> backslash_n) /\
  (contains equals two_line_key = false /\
   set_restart_get (H := listed_order) two_line_key "v" fresh_store empty_world
   = Returned (EmptyString, Some (NotFound two_line_key))) /\
  (contains equals "k" = false /\
   set_get (H := listed_order) "k" "v" (store_with two_line_key "w") empty_world
   = Returned ("w", None)) /\
  (contains equals "k" = false /\
   set_get (H := listed_order) "k" lone_backslash fresh_store empty_world
   = Panicked "index out of range").
Proof. vm_compute. repeat split; done. Qed.

(** C1, amended.  Take a store whose keys hold neither [=] nor a line
    feed and in which no value ends in a backslash, a key [k] without
    [=], and a value [v] that does not end in a backslash and in which,
    unless [k] has a line feed, no backslash is followed by [n] or [r]
    (carriage returns, line feeds and [=] are all allowed).  When the
    refresh at the start of [Set] does not panic, [Set(k, v)] and then
    [Get(k)] returns exactly [v].  When moreover [k] has no line feed,
    escaping and then unescaping [v] gives [v], and once [Set] wrote the
    backing file, a store loaded anew from that file also returns [v]. *)
Theorem C1_roundtrip `{MapOrder} (k v : string) (m : Map) (w : World) :
  returned (refresh m w).1.1 = true ->
  plain_keys (M m) -> no_final_backslash (M m) ->
  contains equals k = false -> ends_with backslash v = false ->
  (contains LF k = false -> escape_free v = true) ->
  set_get k v m w = Returned (v, None) /\
  (contains LF k = false ->
   UnEscReturns (EscReturns v) = Returned v /\
   (M (refresh m w).1.2 !! k <> Some v ->
    File m ∉ readonly w ->
    (forall f, fs w !! File m = Some f -> readable f = true) ->
    set_restart_get k v m w = Returned (v, None))).
Proof.
  intros Hret Hplain Hend Hk Hv Hfree. split.
  - unfold set_get, bind.
    destruct (Set_result k v m w Hret Hplain Hend Hk Hv Hfree)
      as (Hr1 & _ & Hr2 & Hnext).
    destruct (Set_ k v m w) as [[e1 m1] w1]; cbn [fst snd] in *.
    destruct e1 as [e1|msg]; [| done].
    rewrite Get_eq. cbn [fst snd].
    destruct (refresh m1 w1).1.1; [| done].
    unfold answer. by rewrite Hnext.
  - intros Hlf. specialize (Hfree Hlf).
    split; [by apply UnEscReturns_EscReturns |].
    intros Hcur Hrw Hread. unfold set_restart_get. rewrite Set_eq.
    destruct (refresh_shape m w) as (Hp0 & _ & He0).
    specialize (Hp0 Hplain). specialize (He0 Hend).
    pose proof (refresh_File m w) as HFile.
    set (m0 := (refresh m w).1.2) in *.
    destruct (refresh m w).1.1 as [e|msg]; [| done].
    rewrite decide_False by done.
    rewrite save_eq. cbn [File with_M]. rewrite HFile.
    rewrite decide_False by done.
    assert (Hmode : match fs w !! File m with
                    | Some f => readable f | None => true end = true).
    { destruct (fs w !! File m) as [f|] eqn:Hf; [by apply Hread | done]. }
    assert (Hp1 : plain_keys (<[k:=v]> (M m0))).
    { apply plain_keys_insert; [| done]. by apply plain_key_spec. }
    assert (Hrb : reads_back (<[k:=v]> (M m0))).
    { apply reads_back_plain; [done |]. by apply map_Forall_insert_2. }
    unfold NewMapFrom. rewrite loadFile_eq. cbn [File with_M M]. rewrite HFile.
    rewrite written_lookup. cbn [readable]. rewrite Hmode.
    unfold load_outcome, reloaded. cbn [data M modTime File].
    rewrite (reload_returns (<[k:=v]> (M m0)) _ (range_perm _ _)) by done.
    cbn [fst snd]. rewrite Get_eq.
    match goal with |- context [refresh ?m2 ?w2] =>
      assert (Hs : settled m2 w2)
    end.
    { unfold settled. cbn [File lastload]. rewrite written_lookup. by right. }
    destruct (refresh_settled _ _ Hs) as [Hr ->]. cbn [fst snd M].
    destruct (refresh _ _).1.1; [| done].
    unfold answer.
    rewrite (reload_entry (<[k:=v]> (M m0)) _ (range_perm _ _) ∅ k v).
    + by rewrite read_back_id.
    + apply lookup_insert_eq.
    + done.
    + intros k' v' Hk' Hfrag.
      by rewrite (plain_keys_fragment _ k' v' Hp1 Hk') in Hfrag.
Qed.

(** The round trip of the spec, on a value of two lines: [Set], [Get],
    and [Get] again after a restart; and [Set] then [Get] under a key of
    two lines. *)
Lemma C1_roundtrip_witness :
  plain_keys (M fresh_store) /\
  UnEscReturns (EscReturns two_line_value) = Returned two_line_value /\
  set_get (H := listed_order) "k" two_line_value fresh_store empty_world
  = Returned (two_line_value, None) /\
  set_restart_get (H := listed_order) "k" two_line_value fresh_store empty_world
  = Returned (two_line_value, None) /\
  set_get (H := listed_order) two_line_key backslash_n fresh_store empty_world
  = Returned (backslash_n, None).
Proof.
  assert (Hp : plain_keys (M fresh_store)) by apply map_Forall_empty.
  assert (He : no_final_backslash (M fresh_store)) by apply map_Forall_empty.
  destruct (C1_roundtrip (H := listed_order) "k" two_line_value
              fresh_store empty_world eq_refl Hp He eq_refl eq_refl
              (fun _ => eq_refl)) as (H2 & H34).
  destruct (H34 eq_refl) as (H1 & H3).
  destruct (C1_roundtrip (H := listed_order) two_line_key backslash_n
              fresh_store empty_world eq_refl Hp He eq_refl eq_refl) as (H4 & _).
  { intros Hlf. vm_compute in Hlf. discriminate. }
  split; [exact Hp |]. split; [exact H1 |]. split; [exact H2 |].
  split; [| exact H4].
  apply H3.
  - vm_compute. discriminate.
  - apply not_elem_of_empty.
  - intros f Hf. vm_compute in Hf. discriminate.
Defined.




(** ** [Load] *)

Lemma load_outcome_nil (mp : gmap string string) (text : string) (r : option error) :
  load_outcome mp text = Returned r -> r = None.
Proof.
  unfold load_outcome. destruct (load_lines mp (Lines text)).1; [| done].
  by intros [= <-].
Qed.

Lemma load_outcome_returned (mp : gmap string string) (text : string) :
  returned (load_outcome mp text) = sound_lines (Lines text).
Proof.
  unfold load_outcome. rewrite <- (load_lines_returned (Lines text) mp).
  by destruct (load_lines mp (Lines text)).1.
Qed.

(** C2: [Load] merges.  An entry of the map whose key is not the key of
    a record of the text is still there, with its value, after the call,
    however the call ends; the only error that [Load] returns is nil; so,
    with the entry [a=1] in the store, [Load("b=2")] returns success and
    leaves both [a=1] and [b=2]. *)
Theorem C2_load_merges (text k v : string) (m : Map) (w : World) :
  M m !! k = Some v ->
  k ∉ keys_of_text text ->
  M (Load text m w).1.2 !! k = Some v /\
  (forall r, (Load text m w).1.1 = Returned r -> r = None) /\
  ((Load "b=2" (store_with "a" "1") w).1.1 = Returned None /\
   M (Load "b=2" (store_with "a" "1") w).1.2 !! "a" = Some "1" /\
   M (Load "b=2" (store_with "a" "1") w).1.2 !! "b" = Some "2").
Proof.
  intros Hk Hnot. rewrite !Load_eq. cbn [fst snd M with_M].
  split; [| split; [apply load_outcome_nil | by vm_compute]].
  by rewrite load_lines_other.
Qed.

(** The entry [a=1] outlives [Load("b=2")], a text that has no record
    for [a], and also the load of a text on which the unescape step
    panics. *)
Lemma C2_load_merges_witness :
  M (store_with "a" "1") !! "a" = Some "1" /\
  ("a" ∉ keys_of_text "b=2") /\
  M (Load "b=2" (store_with "a" "1") empty_world).1.2 !! "a" = Some "1" /\
  M (Load ("b=2" +:+ lone_backslash) (store_with "a" "1") empty_world).1.2 !! "a"
  = Some "1".
Proof.
  assert (H1 : M (store_with "a" "1") !! "a" = Some "1") by reflexivity.
  assert (H2 : "a" ∉ keys_of_text "b=2").
  { vm_compute. intros Hin. apply list_elem_of_singleton in Hin. discriminate. }
  assert (H3 : "a" ∉ keys_of_text ("b=2" +:+ lone_backslash)).
  { vm_compute. intros Hin. apply list_elem_of_singleton in Hin. discriminate. }
  split; [exact H1 |]. split; [exact H2 |]. split.
  - exact (proj1 (C2_load_merges "b=2" "a" "1" (store_with "a" "1")
                    empty_world H1 H2)).
  - exact (proj1 (C2_load_merges ("b=2" +:+ lone_backslash) "a" "1"
                    (store_with "a" "1") empty_world H1 H3)).
Defined.

(** C6, as stated, fails on a text that has a line without [=] and a
    record whose value ends in a backslash: [Load] does not return
    success, it panics in the unescape step. *)
Lemma C6_load_counterexample :
  (Load ("malformedline" +:+ nl +:+ "a=b" +:+ lone_backslash) NewMap empty_world).1.1
  = Panicked "index out of range" /\
  (Load ("malformedline" +:+ nl +:+ "a=b" +:+ lone_backslash) NewMap empty_world).1.1
  <> Returned None.
Proof. split; [reflexivity | discriminate]. Qed.

(** C6, amended: for every text, [Load] passes over each line without an
    [=]: it ends, and leaves the store, as the load of the lines that
    have an [=] alone.  [Load] returns success unless the unescape step
    panics, which it does when the value of a record ends in a backslash:
    it returns exactly when there is no such record, and then with a nil
    error.  [Load("a=1\nmalformedline\nb=2")] on an empty store gives
    exactly the entries [a:1] and [b:2] and no error.  The world is left
    alone. *)
Theorem C6_load_skips_malformed (text : string) (m : Map) (w : World) :
  Load text m w =
    (match (load_lines (M m) (List.filter (contains equals) (Lines text))).1 with
     | Returned _ => Returned None
     | Panicked msg => Panicked msg
     end,
     with_M m (load_lines (M m) (List.filter (contains equals) (Lines text))).2,
     w) /\
  returned (Load text m w).1.1 = sound_lines (Lines text) /\
  (forall r, (Load text m w).1.1 = Returned r -> r = None) /\
  Load ("a=1" +:+ nl +:+ "malformedline" +:+ nl +:+ "b=2") NewMap w =
    (Returned None, with_M NewMap {[ "a" := "1"; "b" := "2" ]}, w).
Proof.
  rewrite !Load_eq. cbn [fst snd]. split; [| split; [| split]].
  - unfold load_outcome. by rewrite <- load_lines_filter.
  - apply load_outcome_returned.
  - apply load_outcome_nil.
  - reflexivity.
Qed.

(** The example text is loaded with success; the text with a line
    without [=] and a record that ends in a backslash is not: there
    [Load] does not return. *)
Lemma C6_load_skips_malformed_witness :
  (Load ("a=1" +:+ nl +:+ "malformedline" +:+ nl +:+ "b=2") NewMap empty_world).1.1
  = Returned None /\
  returned
    (Load ("malformedline" +:+ nl +:+ "a=b" +:+ lone_backslash) NewMap empty_world).1.1
  = false.
Proof.
  destruct (C6_load_skips_malformed
              ("a=1" +:+ nl +:+ "malformedline" +:+ nl +:+ "b=2") NewMap empty_world)
    as (_ & Hsound & Hnil & _).
  destruct (C6_load_skips_malformed
              ("malformedline" +:+ nl +:+ "a=b" +:+ lone_backslash) NewMap empty_world)
    as (_ & Hbad & _ & _).
  split.
  - destruct (Load ("a=1" +:+ nl +:+ "malformedline" +:+ nl +:+ "b=2")
                NewMap empty_world).1.1 as [r|msg] eqn:Hr.
    + by rewrite (Hnil r eq_refl).
    + discriminate Hsound.
  - rewrite Hbad. reflexivity.
Defined.

(** ** [Get] *)



(** ** [Clear], [Set] with an [=] in the key, [Delete] *)

(** C9: [Clear] empties the map in memory and returns success, and it
    neither reads nor writes the disk: the world after the call is the
    world before it, the backing file included. *)
Theorem C9_clear_memory_only (m : Map) (w : World) :
  Clear m w = (Returned None, with_M m ∅, w) /\
  M (Clear m w).1.2 = ∅ /\
  fs (Clear m w).2 !! File m = fs w !! File m /\
  same_disk w (Clear m w).2.
Proof. by repeat split. Qed.

(** C10: [Set] takes any key.  [Set("a=b", "c")] on a new store succeeds
    and writes the line [a=b=c]; a store loaded from that file has the
    one entry [a] with the value [b=c], so that [Get("a=b")] finds
    nothing there. *)
Theorem C10_set_key_with_equals `{MapOrder} :
  let '(err, m1, w1) := Set_ "a=b" "c" fresh_store empty_world in
  let '(m2, err2, w2) := NewMapFrom (File m1) w1 in
  err = Returned None /\
  M m1 = {[ "a=b" := "c" ]} /\
  data <$> (fs w1 !! DefaultFileName) = Some ("a=b=c" +:+ nl) /\
  err2 = Returned None /\
  M m2 = {[ "a" := "b=c" ]} /\
  (Get "a=b" m2 w2).1.1 = Returned (EmptyString, Some (NotFound "a=b")) /\
  (Get "a" m2 w2).1.1 = Returned ("b=c", None).
Proof.
  rewrite Set_eq.
  change ((refresh fresh_store empty_world).1.2) with fresh_store.
  change ((refresh fresh_store empty_world).1.1)
    with (Returned (Some (PathError "open" DefaultFileName))).
  cbv beta iota.
  rewrite decide_False by done.
  rewrite save_eq. cbn [File with_M fresh_store M].
  rewrite decide_False by apply not_elem_of_empty.
  change (<["a=b":="c"]> ∅) with ({[ "a=b" := "c" ]} : gmap string string).
  rewrite range_singleton.
  by vm_compute.
Qed.

(** C8: when the refresh and the write succeed, [Delete(key)] returns
    success whether the key is there or not; the key is absent afterwards
    and, when it was absent before, the map is unchanged; and the backing
    file holds the text of the format for all the entries of the
    resulting map, in some order: for each entry its key, an [=], its
    escaped value and a line feed. *)
Theorem C8_delete_idempotent `{MapOrder} (key : string) (m : Map) (w : World) :
  (refresh m w).1.1 = Returned None ->
  File m ∉ readonly w ->
  (Delete key m w).1.1 = Returned None /\
  M (Delete key m w).1.2 = delete key (M (refresh m w).1.2) /\
  M (Delete key m w).1.2 !! key = None /\
  (M (refresh m w).1.2 !! key = None ->
   M (Delete key m w).1.2 = M (refresh m w).1.2) /\
  exists kvs, kvs ≡ₚ map_to_list (M (Delete key m w).1.2) /\
    data <$> (fs (Delete key m w).2 !! File m) = Some (records_text kvs).
Proof.
  intros Hok Hrw. rewrite Delete_eq, Hok, save_eq.
  cbn [File with_M]. rewrite refresh_File.
  rewrite decide_False by done. cbn [fst snd M with_M].
  split; [done |]. split; [done |]. split; [apply lookup_delete_eq |].
  split; [apply delete_id |].
  eexists. split; [apply range_perm |].
  rewrite written_lookup. cbn [fmap option_fmap option_map data].
  by rewrite marshal_records_text.
Qed.

(** [Delete] of a key that the store does not have, and of one that it
    has, the file being there and writable: success, and the file holds
    the line of the entry that is left. *)
Lemma C8_delete_idempotent_witness :
  (Delete (H := listed_order) "k" fresh_store (world_with_file ("a=1" +:+ nl))).1.1
  = Returned None /\
  M (Delete (H := listed_order) "k" fresh_store (world_with_file ("a=1" +:+ nl))).1.2
  = {[ "a" := "1" ]} /\
  data <$> (fs (Delete (H := listed_order) "b" fresh_store
                  (world_with_file ("a=1" +:+ nl +:+ "b=2" +:+ nl))).2
            !! DefaultFileName)
  = Some ("a=1" +:+ nl).
Proof.
  assert (H1 : (refresh fresh_store (world_with_file ("a=1" +:+ nl))).1.1
               = Returned None) by reflexivity.
  assert (H2 : File fresh_store ∉ readonly (world_with_file ("a=1" +:+ nl)))
    by apply not_elem_of_empty.
  destruct (C8_delete_idempotent (H := listed_order) "k" fresh_store
              (world_with_file ("a=1" +:+ nl)) H1 H2) as (Hr & _ & _ & Hsame & _).
  destruct (C8_delete_idempotent (H := listed_order) "b" fresh_store
              (world_with_file ("a=1" +:+ nl +:+ "b=2" +:+ nl)) eq_refl
              (not_elem_of_empty _)) as (_ & Hmap & _ & _ & kvs & Hperm & Hdata).
  split; [exact Hr |]. split.
  - rewrite Hsame; [reflexivity | reflexivity].
  - change (File fresh_store) with DefaultFileName in Hdata.
    rewrite Hdata. f_equal.
    rewrite Hmap in Hperm.
    change (delete "b" (M (refresh fresh_store
              (world_with_file ("a=1" +:+ nl +:+ "b=2" +:+ nl))).1.2))
      with ({[ "a" := "1" ]} : gmap string string) in Hperm.
    rewrite map_to_list_singleton in Hperm.
    apply Permutation_singleton_r in Hperm. by rewrite Hperm.
Defined.

(** ** The error of [refresh] *)

(** C3, on the code: [Get] never returns the error of [refresh]; the
    only error it returns is [NotFound].  With the entry [a=1] in memory
    and the backing file gone, the file counts as changed, the reload is
    tried and fails with the error of [os.Open]; [Delete] returns that
    error, but [Get], [Set] and [Match] go on with the map in memory and
    return success. *)
Theorem C3_refresh_error_dropped (key : string) (m : Map) (w : World) :
  (forall val e, (Get key m w).1.1 = Returned (val, Some e) -> e = NotFound key) /\
  (fileHasChanged (store_with "a" "1") empty_world).1.1 = Returned true /\
  (refresh (store_with "a" "1") empty_world).1.1
  = Returned (Some (PathError "open" DefaultFileName)) /\
  (Delete (H := listed_order) "a" (store_with "a" "1") empty_world).1.1
  = Returned (Some (PathError "open" DefaultFileName)) /\
  (Get "a" (store_with "a" "1") empty_world).1.1 = Returned ("1", None) /\
  (Set_ (H := listed_order) "a" "2" (store_with "a" "1") empty_world).1.1
  = Returned None /\
  (Match (H := listed_order) (H0 := literal_regexp) "a"
     (store_with "a" "1") empty_world).1.1 = Returned ("1", None).
Proof.
  split.
  - intros val e. rewrite Get_eq. cbn [fst snd]. unfold answer.
    destruct (refresh m w).1.1; [| done].
    destruct (M (refresh m w).1.2 !! key); [done |]. by intros [= _ <-].
  - by vm_compute.
Qed.

(** With [a=1] in memory and the file gone, the refresh of [Get("b")]
    fails with the error of [os.Open]; the error that [Get] returns is
    [NotFound], not that one. *)
Lemma C3_refresh_error_dropped_witness :
  (refresh (store_with "a" "1") empty_world).1.1
  = Returned (Some (PathError "open" DefaultFileName)) /\
  exists e, (Get "b" (store_with "a" "1") empty_world).1.1
            = Returned (EmptyString, Some e) /\
    e = NotFound "b" /\ e <> PathError "open" DefaultFileName.
Proof.
  split; [reflexivity |].
  exists (NotFound "b"). split; [reflexivity |]. split; [| discriminate].
  exact (proj1 (C3_refresh_error_dropped "b" (store_with "a" "1") empty_world)
           EmptyString (NotFound "b") eq_refl).
Defined.

(** ** [Match] *)

(** C4, as stated, fails for a pattern that does not compile: [Match]
    does not return at all, it panics in [regexp.MustCompile].  Here on
    the pattern made of one opening parenthesis; and no reading of
    [regexp.Compile] as a partial function makes [Match] return an error
    for every pattern that does not compile. *)
Lemma C4_match_counterexample :
  (Compile (Regexp := literal_regexp) "(" = None /\
   (Match (H := listed_order) (H0 := literal_regexp) "(" fresh_store empty_world).1.1
   = Panicked "regexp: Compile(()") /\
  ~ (forall (O : MapOrder) (R : Regexp) (regx : string) (m : Map) (w : World),
       Compile regx = None ->
       exists val err, (Match regx m w).1.1 = Returned (val, Some err)).
Proof.
  split; [by vm_compute |].
  intros Hclaim.
  destruct (Hclaim listed_order literal_regexp "(" fresh_store empty_world eq_refl)
    as (val & err & Hret).
  vm_compute in Hret. discriminate.
Qed.

(** C4, amended: for a pattern that does not compile, [Match] panics and
    returns neither a value nor an error; for a pattern that compiles and
    that no key of the store, refreshed without a panic, matches, [Match]
    returns the error [NotFound] that carries the pattern. *)
Theorem C4_match_errors `{MapOrder} `{Regexp} (regx : string) (m : Map) (w : World) :
  (Compile regx = None ->
   exists msg, (Match regx m w).1.1 = Panicked msg) /\
  (forall x, Compile regx = Some x ->
   returned (refresh m w).1.1 = true ->
   (forall k v, M (refresh m w).1.2 !! k = Some v -> x k = false) ->
   (Match regx m w).1.1 = Returned (EmptyString, Some (NotFound regx))).
Proof.
  rewrite Match_eq. split.
  - intros ->. destruct (refresh m w).1.1; by eexists.
  - intros x -> Hret Hno. destruct (refresh m w).1.1; [| done]. cbn [fst snd].
    rewrite find_none_all; [done |].
    intros [k v] Hin. simpl. apply (Hno k v).
    rewrite range_perm in Hin. by apply elem_of_map_to_list.
Qed.

(** [Match] on a store that holds [a=1]: a pattern with an open
    parenthesis panics, the pattern [zz] is not found. *)
Lemma C4_match_errors_witness :
  (exists msg,
     (Match (H := listed_order) (H0 := literal_regexp) "("
        (store_with "a" "1") empty_world).1.1 = Panicked msg) /\
  (Match (H := listed_order) (H0 := literal_regexp) "zz"
     (store_with "a" "1") empty_world).1.1
  = Returned (EmptyString, Some (NotFound "zz")).
Proof.
  destruct (C4_match_errors (H := listed_order) (H0 := literal_regexp) "("
              (store_with "a" "1") empty_world) as [Hpanic _].
  destruct (C4_match_errors (H := listed_order) (H0 := literal_regexp) "zz"
              (store_with "a" "1") empty_world) as [_ Hnone].
  split; [exact (Hpanic eq_refl) |].
  apply (Hnone (occurs "zz") eq_refl eq_refl).
  intros k v Hk.
  change (M (refresh (store_with "a" "1") empty_world).1.2)
    with ({[ "a" := "1" ]} : gmap string string) in Hk.
  apply lookup_singleton_Some in Hk as [<- _]. reflexivity.
Defined.

(** * Further properties of the store *)

(** ** [refresh] and [Load] *)

(** X1: [refresh] never writes, and reads the file at most once per
    version of it: the world is left as it is; a second [refresh] right
    after the first leaves the store as the first made it; when the first
    returned, the second returns the same result; when the first
    panicked in the unescape step, the time of the file is already kept,
    so that the second loads nothing and returns success. *)
Theorem X1_refresh_idempotent (m : Map) (w : World) :
  (refresh m w).2 = w /\
  (refresh (refresh m w).1.2 w).1.2 = (refresh m w).1.2 /\
  (returned (refresh m w).1.1 = true ->
   refresh (refresh m w).1.2 w = refresh m w) /\
  (forall msg, (refresh m w).1.1 = Panicked msg ->
   refresh (refresh m w).1.2 w = (Returned None, (refresh m w).1.2, w)).
Proof.
  split; [apply refresh_world |].
  rewrite (refresh_eq m w).
  destruct (fs w !! File m) as [f|] eqn:Hf.
  - destruct (Nat.ltb (lastload m) (modTime f)) eqn:Hlt.
    + destruct (readable f) eqn:Hr; cbn [fst snd].
      * rewrite refresh_eq. cbn [File reloaded lastload]. rewrite Hf.
        rewrite Nat.ltb_irrefl. cbn [fst snd].
        split; [done |]. split; [| done].
        unfold load_outcome.
        by destruct (load_lines (M m) (Lines (data f))).1.
      * rewrite refresh_eq, Hf, Hlt, Hr. done.
    + cbn [fst snd]. by rewrite refresh_eq, Hf, Hlt.
  - cbn [fst snd]. by rewrite refresh_eq, Hf.
Qed.

(** A store that holds [a=1] and a file that says [a=2]: the second
    [refresh] is the first one's result again.  With a file whose record
    ends in a backslash the first [refresh] panics and the second returns
    success. *)
Lemma X1_refresh_idempotent_witness :
  refresh (refresh (store_with "a" "1") (world_with_file ("a=2" +:+ nl))).1.2
    (world_with_file ("a=2" +:+ nl))
  = refresh (store_with "a" "1") (world_with_file ("a=2" +:+ nl)) /\
  (refresh (refresh fresh_store (world_with_file ("a=b" +:+ lone_backslash))).1.2
     (world_with_file ("a=b" +:+ lone_backslash))).1.1
  = Returned None.
Proof.
  destruct (X1_refresh_idempotent (store_with "a" "1")
              (world_with_file ("a=2" +:+ nl))) as (_ & _ & Hsame & _).
  destruct (X1_refresh_idempotent fresh_store
              (world_with_file ("a=b" +:+ lone_backslash))) as (_ & _ & _ & Hpanic).
  split; [exact (Hsame eq_refl) |].
  by rewrite (Hpanic "index out of range" eq_refl).
Defined.

(** X2: what [Load] leaves under a key, when it returns, that is when no
    record of the text has a value that ends in a backslash.  When the
    text has a record for the key, the last such record wins, its value
    being all that follows the first [=] of the line, unescaped; when it
    has none, the key keeps what it had, be it a value or nothing. *)
Theorem X2_load_last_record_wins (text k : string) (m : Map) (w : World) :
  returned (Load text m w).1.1 = sound_lines (Lines text) /\
  (sound_lines (Lines text) = true ->
   (Load text m w).1.1 = Returned None /\
   M (Load text m w).1.2 !! k =
     match record_of k (Lines text) with
     | Some x => unescaped x
     | None => M m !! k
     end /\
   forall x, record_of k (Lines text) = Some x ->
     exists u, UnEscReturns x = Returned u /\ M (Load text m w).1.2 !! k = Some u).
Proof.
  rewrite Load_eq. cbn [fst snd M with_M].
  split; [apply load_outcome_returned |].
  intros Hs. pose proof (load_lines_sound (Lines text) (M m) Hs) as Hret.
  split; [unfold load_outcome; by rewrite Hret |].
  pose proof (load_lines_lookup (Lines text) (M m) k Hret) as Hk.
  split; [exact Hk |].
  intros x Hx. rewrite Hx in Hk. rewrite Hk. unfold unescaped.
  destruct (record_of_unescapes _ k x Hs Hx) as [u Hu].
  exists u. by rewrite Hu.
Qed.

(** Two records for [a]: the last one wins, and its value keeps its
    second [=]. *)
Lemma X2_load_last_record_wins_witness :
  M (Load ("a=1" +:+ nl +:+ "a=2=3" +:+ nl) NewMap empty_world).1.2 !! "a"
  = Some "2=3".
Proof.
  destruct (X2_load_last_record_wins ("a=1" +:+ nl +:+ "a=2=3" +:+ nl) "a"
              NewMap empty_world) as [_ Hload].
  destruct (Hload eq_refl) as (_ & -> & _). reflexivity.
Defined.

(** X3: loading the same text twice in a row ends as loading it once:
    when the first [Load] returns, the second returns too and leaves the
    store as the first one made it; when the first panics, that is how
    the two end. *)
Theorem X3_load_idempotent (text : string) (m : Map) (w : World) :
  (Load text ;;; Load text) m w = Load text m w.
Proof.
  unfold bind. rewrite (Load_eq text m w). unfold load_outcome.
  destruct (load_lines (M m) (Lines text)).1 as [[]|msg] eqn:Hret; [| done].
  cbv beta iota. rewrite Load_eq. unfold load_outcome, with_M. cbn [M File lastload].
  by rewrite (load_lines_twice _ _ Hret).
Qed.

(** ** Staleness *)

(** X4: where [Get] takes its answer from.  When the backing file is
    readable and newer than the last load, [Get] merges the records of
    the file into the map and remembers the time of the file; when no
    record has a value that ends in a backslash, it answers from the
    records first and from memory for the keys that the file does not
    have; when one has, it panics.  When there is nothing to load (no
    file, an unreadable file, a file that is not newer), [Get] answers
    from memory alone and changes nothing, whatever the file says. *)
Theorem X4_get_staleness (k : string) (m : Map) (w : World) :
  (forall f, fs w !! File m = Some f -> readable f = true ->
     lastload m < modTime f ->
     (Get k m w).1.2 = reloaded m f /\
     (Get k m w).2 = w /\
     (sound_lines (Lines (data f)) = true ->
      (Get k m w).1.1 =
        Returned match merged_lookup (M m) (data f) k with
                 | Some val => (val, None)
                 | None => (EmptyString, Some (NotFound k))
                 end) /\
     (sound_lines (Lines (data f)) = false ->
      exists msg, (Get k m w).1.1 = Panicked msg)) /\
  (settled m w -> Get k m w = (Returned (answer (M m) k), m, w)).
Proof.
  split.
  - intros f Hf Hr Hlt. rewrite Get_eq, refresh_eq, Hf, Hr.
    apply Nat.ltb_lt in Hlt. rewrite Hlt. cbn [fst snd reloaded M].
    split; [done |]. split; [done |].
    pose proof (load_outcome_returned (M m) (data f)) as Hret.
    split; intros Hs; rewrite Hs in Hret.
    + pose proof (load_lines_sound _ (M m) Hs) as Hl.
      destruct (load_outcome (M m) (data f)); [| done].
      unfold answer, merged_lookup.
      by rewrite (load_lines_lookup _ _ k Hl).
    + destruct (load_outcome (M m) (data f)) as [|msg]; [done | by exists msg].
  - intros Hs. rewrite Get_eq.
    destruct (refresh_settled m w Hs) as [Hr ->].
    by destruct (refresh m w).1.1.
Qed.

(** A store that holds [a=1], last loaded at time 0, and a file of time 1
    that says [a=2]: [Get] answers [2].  The same store with no file:
    [Get] answers [1]. *)
Lemma X4_get_staleness_witness :
  (Get "a" (store_with "a" "1") (world_with_file ("a=2" +:+ nl))).1.1
  = Returned ("2", None) /\
  (Get "a" (store_with "a" "1") empty_world).1.1 = Returned ("1", None).
Proof.
  destruct (X4_get_staleness "a" (store_with "a" "1")
              (world_with_file ("a=2" +:+ nl))) as [Hnew _].
  destruct (X4_get_staleness "a" (store_with "a" "1") empty_world) as [_ Hold].
  split.
  - destruct (Hnew (mkFile ("a=2" +:+ nl) 1 true) eq_refl eq_refl) as (_ & _ & Hs & _).
    { simpl. lia. }
    by rewrite (Hs eq_refl).
  - rewrite Hold; [done |]. exact I.
Defined.

(** ** [NewMapFrom] *)

(** X5: [NewMapFrom] makes a store on the given path and writes nothing.
    When the file cannot be opened, it returns the error of [os.Open]
    with an empty map.  When the file is readable and no record of it has
    a value that ends in a backslash, it returns no error and the store
    answers every [Get] from the records of the file, [NotFound] for a
    key without record, without reading the file again.  When a record
    has such a value, [NewMapFrom] panics. *)
Theorem X5_new_map_from (path k : string) (w : World) :
  File (NewMapFrom path w).1.1 = path /\
  (NewMapFrom path w).2 = w /\
  ((forall f, fs w !! path = Some f -> readable f = false) ->
   NewMapFrom path w = (mkMap ∅ path 0, Returned (Some (PathError "open" path)), w)) /\
  (forall f, fs w !! path = Some f -> readable f = true ->
   returned (NewMapFrom path w).1.2 = sound_lines (Lines (data f)) /\
   (sound_lines (Lines (data f)) = true ->
    (NewMapFrom path w).1.2 = Returned None /\
    settled (NewMapFrom path w).1.1 w /\
    Get k (NewMapFrom path w).1.1 w =
      (Returned match record_of k (Lines (data f)) with
                | Some x =>
                    match unescaped x with
                    | Some u => (u, None)
                    | None => (EmptyString, Some (NotFound k))
                    end
                | None => (EmptyString, Some (NotFound k))
                end, (NewMapFrom path w).1.1, w))).
Proof.
  unfold NewMapFrom. rewrite loadFile_eq.
  destruct (fs w !! path) as [f|] eqn:Hf.
  - destruct (readable f) eqn:Hr; cbn [fst snd File reloaded M].
    + split; [done |]. split; [done |]. split.
      * intros Hno. specialize (Hno f eq_refl). congruence.
      * intros f' [= <-] _.
        split; [apply load_outcome_returned |]. intros Hs.
        pose proof (load_lines_sound _ ∅ Hs) as Hl.
        assert (Hset : settled (reloaded (mkMap ∅ path 0) f) w).
        { unfold settled. cbn [File reloaded lastload]. rewrite Hf. by right. }
        split; [unfold load_outcome; by rewrite Hl |]. split; [exact Hset |].
        rewrite Get_eq. destruct (refresh_settled _ _ Hset) as [Hret ->].
        destruct (refresh _ w).1.1; [| done].
        unfold answer. cbn [M reloaded].
        rewrite (load_lines_lookup _ _ k Hl), lookup_empty.
        destruct (record_of k (Lines (data f))); [| done].
        by destruct (unescaped s).
    + split; [done |]. split; [done |]. split; [done |].
      intros f' [= <-] Hr'. congruence.
  - cbn [fst snd File]. split; [done |]. split; [done |]. split; [done |].
    intros f' Hf'. discriminate.
Qed.

(** [NewMapFrom] on a file that says [a=1]: the key [a] has the value
    [1]; with no file at all: an error and an empty map. *)
Lemma X5_new_map_from_witness :
  (Get "a" (NewMapFrom DefaultFileName (world_with_file ("a=1" +:+ nl))).1.1
     (world_with_file ("a=1" +:+ nl))).1.1 = Returned ("1", None) /\
  NewMapFrom DefaultFileName empty_world
  = (fresh_store, Returned (Some (PathError "open" DefaultFileName)), empty_world).
Proof.
  destruct (X5_new_map_from DefaultFileName "a" (world_with_file ("a=1" +:+ nl)))
    as (_ & _ & _ & Hok).
  destruct (X5_new_map_from DefaultFileName "a" empty_world) as (_ & _ & Hno & _).
  split.
  - destruct (Hok (mkFile ("a=1" +:+ nl) 1 true) eq_refl eq_refl) as (_ & Hs).
    destruct (Hs eq_refl) as (_ & _ & ->). reflexivity.
  - apply Hno. intros f Hf. vm_compute in Hf. discriminate.
Defined.

(** ** [Set] and [Delete], on disk and in memory *)

(** X6: a [Set] whose [refresh] does not panic, that has something to
    write and can write it, returns success, changes the one key in
    memory, and overwrites the backing file, creating it if need be, with
    the text of the format for all the entries of the resulting map, in
    some order: for each entry its key, an [=], its escaped value and a
    line feed; no other file is touched, there is one write, and the time
    of the last load stays what [refresh] made it. *)
Theorem X6_set_persists_whole_map `{MapOrder} (k v : string) (m : Map) (w : World) :
  returned (refresh m w).1.1 = true ->
  M (refresh m w).1.2 !! k <> Some v ->
  File m ∉ readonly w ->
  (Set_ k v m w).1.1 = Returned None /\
  M (Set_ k v m w).1.2 = <[k := v]> (M (refresh m w).1.2) /\
  lastload (Set_ k v m w).1.2 = lastload (refresh m w).1.2 /\
  (exists kvs, kvs ≡ₚ map_to_list (M (Set_ k v m w).1.2) /\
     data <$> (fs (Set_ k v m w).2 !! File m) = Some (records_text kvs)) /\
  (forall p, p <> File m -> fs (Set_ k v m w).2 !! p = fs w !! p) /\
  writes w (Set_ k v m w).2 = 1.
Proof.
  intros Hret Hcur Hrw. rewrite Set_eq.
  destruct (refresh m w).1.1 as [e|msg]; [| done].
  rewrite decide_False by done. rewrite save_eq.
  cbn [File with_M]. rewrite refresh_File. rewrite decide_False by done.
  cbn [fst snd M lastload with_M].
  split; [done |]. split; [done |]. split; [done |]. split; [| split].
  - eexists. split; [apply range_perm |].
    rewrite written_lookup. cbn [fmap option_fmap option_map data].
    by rewrite marshal_records_text.
  - intros p Hp. by apply written_lookup_ne.
  - unfold writes, written. cbn [clock]. lia.
Qed.

(** [Set] on a new store with no file yet: the file is created with the
    one line [k=v]. *)
Lemma X6_set_persists_whole_map_witness :
  (Set_ (H := listed_order) "k" "v" fresh_store empty_world).1.1 = Returned None /\
  M (Set_ (H := listed_order) "k" "v" fresh_store empty_world).1.2 = {[ "k" := "v" ]} /\
  data <$> (fs (Set_ (H := listed_order) "k" "v" fresh_store empty_world).2
            !! DefaultFileName) = Some ("k=v" +:+ nl) /\
  writes empty_world (Set_ (H := listed_order) "k" "v" fresh_store empty_world).2 = 1.
Proof.
  assert (H1 : M (refresh fresh_store empty_world).1.2 !! "k" <> Some "v").
  { vm_compute. discriminate. }
  assert (H2 : File fresh_store ∉ readonly empty_world) by apply not_elem_of_empty.
  destruct (X6_set_persists_whole_map (H := listed_order) "k" "v" fresh_store
              empty_world eq_refl H1 H2) as (Ha & Hb & _ & (kvs & Hperm & Hd) & _ & Hc).
  split; [exact Ha |]. split; [by rewrite Hb |]. split; [| exact Hc].
  change (File fresh_store) with DefaultFileName in Hd. rewrite Hd. f_equal.
  rewrite Hb in Hperm.
  change (<["k":="v"]> (M (refresh fresh_store empty_world).1.2))
    with ({[ "k" := "v" ]} : gmap string string) in Hperm.
  rewrite map_to_list_singleton in Hperm.
  apply Permutation_singleton_r in Hperm. by rewrite Hperm.
Defined.

(** X7: when the backing file cannot be written, [Set] and [Delete]
    return the error of the write, the disk is as it was, and yet the
    change stays in memory: after the failed [Set], whose [refresh] did
    not panic, [Get] returns the new value; after the failed [Delete],
    the key is gone from the map. *)
Theorem X7_write_failure_keeps_memory `{MapOrder} (k v : string) (m : Map) (w : World) :
  File m ∈ readonly w ->
  (returned (refresh m w).1.1 = true ->
   M (refresh m w).1.2 !! k <> Some v ->
   (Set_ k v m w).1.1 = Returned (Some (PathError "open" (File m))) /\
   same_disk w (Set_ k v m w).2 /\
   M (Set_ k v m w).1.2 = <[k := v]> (M (refresh m w).1.2) /\
   (Set_ k v ;;; Get k) m w
   = (Returned (v, None), (Set_ k v m w).1.2, (Set_ k v m w).2)) /\
  ((refresh m w).1.1 = Returned None ->
   (Delete k m w).1.1 = Returned (Some (PathError "open" (File m))) /\
   same_disk w (Delete k m w).2 /\
   M (Delete k m w).1.2 = delete k (M (refresh m w).1.2)).
Proof.
  intros Hro. split.
  - intros Hret Hcur. unfold bind. rewrite Set_eq.
    destruct (refresh m w).1.1 as [e|msg]; [| done].
    rewrite decide_False by done. rewrite save_eq.
    cbn [File with_M]. rewrite refresh_File. rewrite decide_True by done.
    cbn [fst snd M with_M].
    split; [done |]. split; [done |]. split; [done |].
    rewrite Get_eq.
    assert (Hs : settled (with_M (refresh m w).1.2
                            (<[k:=v]> (M (refresh m w).1.2))) (ranged w)).
    { apply (settled_ext (refresh m w).1.2 _ w); try done.
      apply refresh_settles. }
    destruct (refresh_settled _ _ Hs) as [Hr ->].
    destruct (refresh _ (ranged w)).1.1; [| done].
    unfold answer. cbn [M with_M]. by rewrite lookup_insert_eq.
  - intros Hok. rewrite Delete_eq, Hok, save_eq.
    cbn [File with_M]. rewrite refresh_File. rewrite decide_True by done.
    done.
Qed.

(** A store on a file that cannot be written: [Set] fails, and [Get]
    returns the value all the same. *)
Lemma X7_write_failure_keeps_memory_witness :
  ((Set_ (H := listed_order) "k" "v" ;;; Get "k") fresh_store locked_world).1.1
  = Returned ("v", None) /\
  (Set_ (H := listed_order) "k" "v" fresh_store locked_world).1.1
  = Returned (Some (PathError "open" DefaultFileName)).
Proof.
  assert (H1 : File fresh_store ∈ readonly locked_world).
  { change (DefaultFileName ∈ ({[ DefaultFileName ]} : gset string)).
    by apply elem_of_singleton. }
  assert (H2 : M (refresh fresh_store locked_world).1.2 !! "k" <> Some "v").
  { vm_compute. discriminate. }
  destruct (X7_write_failure_keeps_memory (H := listed_order) "k" "v" fresh_store
              locked_world H1) as [Hset _].
  destruct (Hset eq_refl H2) as (He & _ & _ & Hget).
  split; [by rewrite Hget | exact He].
Defined.

(** X8: [Delete] needs the backing file.  When [refresh] fails, [Delete]
    returns the error of [refresh] and deletes nothing, in memory or on
    disk; so it is when the store has no file at its path: the error is
    that of [os.Open], and no file is created. *)
Theorem X8_delete_needs_file `{MapOrder} (k : string) (m : Map) (w : World) :
  (forall e, (refresh m w).1.1 = Returned (Some e) ->
     Delete k m w = (Returned (Some e), m, w)) /\
  (fs w !! File m = None ->
   Delete k m w = (Returned (Some (PathError "open" (File m))), m, w)).
Proof.
  split.
  - intros e He. rewrite Delete_eq, He. by rewrite (refresh_error_keeps m w e).
  - intros Hf. rewrite Delete_eq, refresh_eq, Hf. done.
Qed.

(** The entry [a=1] in memory and no file: [Delete("a")] fails and the
    entry is still there. *)
Lemma X8_delete_needs_file_witness :
  Delete (H := listed_order) "a" (store_with "a" "1") empty_world
  = (Returned (Some (PathError "open" DefaultFileName)), store_with "a" "1",
     empty_world).
Proof.
  exact (proj2 (X8_delete_needs_file (H := listed_order) "a"
                  (store_with "a" "1") empty_world) eq_refl).
Defined.

(** X9: [Delete] and then [Get], in a store whose keys hold neither [=]
    nor a line feed and whose values do not end in a backslash, when the
    refresh and the write of [Delete] succeed: the deleted key is not
    found, also though [Get] reads back the file that [Delete] wrote; and
    every other key whose value is escape-free still has its value. *)
Theorem X9_delete_then_get `{MapOrder} (k : string) (m : Map) (w : World) :
  plain_keys (M m) -> no_final_backslash (M m) ->
  (refresh m w).1.1 = Returned None ->
  File m ∉ readonly w ->
  ((Delete k ;;; Get k) m w).1.1 = Returned (EmptyString, Some (NotFound k)) /\
  (forall k' v', k' <> k ->
     M (refresh m w).1.2 !! k' = Some v' -> escape_free v' = true ->
     ((Delete k ;;; Get k') m w).1.1 = Returned (v', None)).
Proof.
  intros Hplain Hend Hok Hrw.
  destruct (refresh_shape m w) as (Hp0 & _ & He0).
  specialize (Hp0 Hplain). specialize (He0 Hend).
  assert (Hrw0 : File (refresh m w).1.2 ∉ readonly w) by by rewrite refresh_File.
  unfold bind. rewrite Delete_eq, Hok, save_eq.
  set (m0 := (refresh m w).1.2) in *.
  cbn [File with_M]. rewrite decide_False by done.
  set (m1 := with_M m0 (delete k (M m0))).
  assert (Hp1 : plain_keys (M m1)) by by apply plain_keys_delete.
  assert (Hrb : reads_back (M m1)).
  { apply reads_back_plain; [done |]. by apply map_Forall_delete. }
  destruct (refresh_after_written m1 w Hrb) as [Hret _].
  change (File m0) with (File m1).
  split.
  - rewrite Get_eq. cbn [fst snd].
    destruct (refresh m1 _).1.1; [| done]. unfold answer.
    rewrite (refresh_after_written_untouched m1 w k Hrb).
    + cbn [M m1 with_M]. by rewrite lookup_delete_eq.
    + intros k' v' Hk' Hfrag.
      rewrite (plain_keys_fragment (M m1) k' v') in Hfrag by done. subst k'.
      cbn [M m1 with_M] in Hk'. by rewrite lookup_delete_eq in Hk'.
  - intros k' v' Hne Hk' Hv'. rewrite Get_eq. cbn [fst snd].
    destruct (refresh m1 _).1.1; [| done]. unfold answer.
    assert (Hk1 : M m1 !! k' = Some v').
    { cbn [M m1 with_M]. by rewrite lookup_delete_ne. }
    rewrite (refresh_after_written_entry m1 w k' v' Hrb); [done | done | | done |].
    + pose proof (Hp1 k' v' Hk1) as Hp. apply plain_key_spec in Hp. tauto.
    + intros k'' v'' Hk'' Hfrag.
      by rewrite (plain_keys_fragment (M m1) k'' v'') in Hfrag.
Qed.

(** A file that says [a=1] and [b=2]: after [Delete("a")], [a] is not
    found and [b] still has the value [2]. *)
Lemma X9_delete_then_get_witness :
  ((Delete (H := listed_order) "a" ;;; Get "a") fresh_store
     (world_with_file ("a=1" +:+ nl +:+ "b=2" +:+ nl))).1.1
  = Returned (EmptyString, Some (NotFound "a")) /\
  ((Delete (H := listed_order) "a" ;;; Get "b") fresh_store
     (world_with_file ("a=1" +:+ nl +:+ "b=2" +:+ nl))).1.1
  = Returned ("2", None).
Proof.
  assert (Hp : plain_keys (M fresh_store)) by apply map_Forall_empty.
  assert (He : no_final_backslash (M fresh_store)) by apply map_Forall_empty.
  assert (Hw : File fresh_store
                 ∉ readonly (world_with_file ("a=1" +:+ nl +:+ "b=2" +:+ nl)))
    by apply not_elem_of_empty.
  destruct (X9_delete_then_get (H := listed_order) "a" fresh_store
              (world_with_file ("a=1" +:+ nl +:+ "b=2" +:+ nl)) Hp He eq_refl Hw)
    as [Ha Hb].
  split; [exact Ha |].
  apply (Hb "b" "2"); [discriminate | reflexivity | reflexivity].
Defined.

(** ** [Clear] and what follows *)

(** X10: [Clear] leaves the store out of step with its file.  When there
    is nothing to load, every [Get] after [Clear] is [NotFound], whatever
    the file holds; and the next [Set] that can write overwrites the file
    with the single line of its own entry, so that every entry the file
    had is lost on disk too. *)
Theorem X10_clear_then_get_set `{MapOrder} (k v : string) (m : Map) (w : World) :
  settled m w ->
  (Clear ;;; Get k) m w
  = (Returned (EmptyString, Some (NotFound k)), with_M m ∅, w) /\
  (File m ∉ readonly w ->
   (Clear ;;; Set_ k v) m w =
     (Returned None, with_M m {[ k := v ]},
      written w (File m) (k +:+ "=" +:+ EscReturns v +:+ nl))).
Proof.
  intros Hs.
  assert (Hs' : settled (with_M m ∅) w) by by apply (settled_ext m _ w).
  destruct (refresh_settled _ _ Hs') as [Hret Hsame].
  split.
  - unfold bind.
    change (Clear m w) with (Returned (None : option error), with_M m ∅, w).
    cbv beta iota. rewrite Get_eq, Hsame.
    by destruct (refresh (with_M m ∅) w).1.1.
  - intros Hrw. unfold bind.
    change (Clear m w) with (Returned (None : option error), with_M m ∅, w).
    cbv beta iota. rewrite Set_eq, Hsame.
    destruct (refresh (with_M m ∅) w).1.1; [| done].
    cbn [M with_M].
    rewrite decide_False by by rewrite lookup_empty.
    rewrite save_eq. cbn [File with_M M]. rewrite decide_False by done.
    change (<[k:=v]> ∅) with ({[ k := v ]} : gmap string string).
    rewrite range_singleton. reflexivity.
Qed.

(** A store loaded from a file that says [a=1] and [b=2]: after [Clear],
    [a] is not found, and [Set("c", "3")] leaves a file of one line. *)
Lemma X10_clear_then_get_set_witness :
  ((Clear ;;; Get "a")
     (NewMapFrom DefaultFileName (world_with_file ("a=1" +:+ nl +:+ "b=2" +:+ nl))).1.1
     (world_with_file ("a=1" +:+ nl +:+ "b=2" +:+ nl))).1.1
  = Returned (EmptyString, Some (NotFound "a")) /\
  data <$> (fs ((Clear ;;; Set_ (H := listed_order) "c" "3")
     (NewMapFrom DefaultFileName (world_with_file ("a=1" +:+ nl +:+ "b=2" +:+ nl))).1.1
     (world_with_file ("a=1" +:+ nl +:+ "b=2" +:+ nl))).2 !! DefaultFileName)
  = Some ("c=3" +:+ nl).
Proof.
  assert (Hs : settled
            (NewMapFrom DefaultFileName
               (world_with_file ("a=1" +:+ nl +:+ "b=2" +:+ nl))).1.1
            (world_with_file ("a=1" +:+ nl +:+ "b=2" +:+ nl))).
  { vm_compute. right. constructor. }
  destruct (X10_clear_then_get_set (H := listed_order) "a" "1" _ _ Hs) as [Hget _].
  destruct (X10_clear_then_get_set (H := listed_order) "c" "3" _ _ Hs) as [_ Hset].
  split.
  - by rewrite Hget.
  - rewrite Hset by apply not_elem_of_empty. reflexivity.
Defined.

(** ** [Match], when a key matches *)

(** X11: [Match] writes nothing, however it ends.  When the [refresh]
    does not panic, the pattern compiles and some key of the refreshed
    store matches it, [Match] returns, with no error, the value of an
    entry whose key matches; when exactly one key matches, that is the
    value of this key, whatever the order of the loop. *)
Theorem X11_match_found `{MapOrder} `{Regexp} (regx : string) (x : string -> bool)
    (m : Map) (w : World) :
  same_disk w (Match regx m w).2 /\
  (returned (refresh m w).1.1 = true ->
   Compile regx = Some x ->
   (exists k v, M (refresh m w).1.2 !! k = Some v /\ x k = true) ->
   (exists k v, (Match regx m w).1.1 = Returned (v, None) /\
      M (refresh m w).1.2 !! k = Some v /\ x k = true) /\
   (forall k v, M (refresh m w).1.2 !! k = Some v -> x k = true ->
      (forall k', is_Some (M (refresh m w).1.2 !! k') -> x k' = true -> k' = k) ->
      (Match regx m w).1.1 = Returned (v, None))).
Proof.
  rewrite Match_eq. split.
  { destruct (refresh m w).1.1; [| done]. by destruct (Compile regx). }
  intros Hret Hc (k0 & v0 & Hk0 & Hx0). rewrite Hc.
  destruct (refresh m w).1.1 as [e|msg]; [| done]. cbn [fst snd].
  set (kvs := range (rng w) (M (refresh m w).1.2)).
  assert (Hin : forall kv, kv ∈ kvs <-> M (refresh m w).1.2 !! kv.1 = Some kv.2).
  { intros [a b]. unfold kvs. rewrite range_perm. apply elem_of_map_to_list. }
  destruct (List.find (fun kv => x kv.1) kvs) as [[a b]|] eqn:Hfind.
  - apply List.find_some in Hfind as [Ha Hxa].
    apply list_elem_of_In, Hin in Ha. simpl in Ha, Hxa.
    split; [by exists a, b |].
    intros k v Hk Hx Huniq.
    assert (a = k) as -> by (apply Huniq; [by eexists | done]).
    simpl. congruence.
  - exfalso.
    pose proof (List.find_none _ _ Hfind (k0, v0)) as Hnone.
    simpl in Hnone. rewrite Hnone in Hx0; [done |].
    apply list_elem_of_In, Hin. done.
Qed.

(** [Match] of the pattern [a] on a store that holds [a=1]. *)
Lemma X11_match_found_witness :
  (Match (H := listed_order) (H0 := literal_regexp) "a"
     (store_with "a" "1") empty_world).1.1 = Returned ("1", None).
Proof.
  destruct (X11_match_found (H := listed_order) (H0 := literal_regexp) "a"
              (occurs "a") (store_with "a" "1") empty_world) as [_ Hfound].
  destruct (Hfound eq_refl eq_refl) as [_ Huniq].
  - exists "a", "1". split; reflexivity.
  - apply (Huniq "a" "1"); [reflexivity | reflexivity |].
    intros k' [v' Hk'] _.
    change (M (refresh (store_with "a" "1") empty_world).1.2)
      with ({[ "a" := "1" ]} : gmap string string) in Hk'.
    by apply lookup_singleton_Some in Hk' as [<- _].
Defined.

(** ** What a loaded store looks like, and the whole map after a restart *)

(** X12: the shape of a loaded store.  Every key of a store that
    [NewMapFrom] leaves, however it ends, is free of [=] and of line
    feeds, and no value of it holds a backslash followed by [n] or [r],
    or ends in a backslash; [Load] and [refresh] keep each of these
    properties of a store that has it. *)
Theorem X12_loaded_store_shape (path text : string) (m : Map) (w : World) :
  (plain_keys (M (NewMapFrom path w).1.1) /\
   escape_free_values (M (NewMapFrom path w).1.1) /\
   no_final_backslash (M (NewMapFrom path w).1.1)) /\
  (plain_keys (M m) -> escape_free_values (M m) ->
   (plain_keys (M (Load text m w).1.2) /\
    escape_free_values (M (Load text m w).1.2)) /\
   (plain_keys (M (refresh m w).1.2) /\
    escape_free_values (M (refresh m w).1.2))) /\
  (no_final_backslash (M m) ->
   no_final_backslash (M (Load text m w).1.2) /\
   no_final_backslash (M (refresh m w).1.2)).
Proof.
  split; [| split].
  - unfold NewMapFrom. rewrite loadFile_eq.
    destruct (fs w !! path) as [f|];
      [destruct (readable f) |]; cbn [fst snd M reloaded];
      try (repeat split; apply map_Forall_empty).
    destruct (load_text_shape (data f) ∅) as (H1 & H2 & H3).
    split; [| split]; [apply H1 | apply H2 | apply H3]; apply map_Forall_empty.
  - intros Hp He. rewrite Load_eq. cbn [fst snd M with_M].
    destruct (load_text_shape text (M m)) as (H1 & H2 & _).
    destruct (refresh_shape m w) as (H4 & H5 & _).
    split; [split |split]; auto.
  - intros Hb. rewrite Load_eq. cbn [fst snd M with_M].
    destruct (load_text_shape text (M m)) as (_ & _ & H3).
    destruct (refresh_shape m w) as (_ & _ & H6).
    split; auto.
Qed.

(** A store with the entry [a=1] keeps the shape when a text with a
    value that holds an [=] and an escaped line feed is loaded. *)
Lemma X12_loaded_store_shape_witness :
  plain_keys (M (Load ("b=x=y\nz" +:+ nl) (store_with "a" "1") empty_world).1.2) /\
  escape_free_values (M (Load ("b=x=y\nz" +:+ nl) (store_with "a" "1") empty_world).1.2).
Proof.
  assert (Hp : plain_keys (M (store_with "a" "1"))).
  { apply map_Forall_singleton. reflexivity. }
  assert (He : escape_free_values (M (store_with "a" "1"))).
  { apply map_Forall_singleton. reflexivity. }
  exact (proj1 (proj1 (proj2 (X12_loaded_store_shape DefaultFileName
                                ("b=x=y\nz" +:+ nl)
                                (store_with "a" "1") empty_world)) Hp He)).
Defined.

(** X13: the whole map survives a restart.  In a store whose keys are
    plain and whose values are escape-free and do not end in a
    backslash, after a [Set] of a plain key to such a value, whose
    [refresh] did not panic and that wrote the backing file, [NewMapFrom]
    on that file returns no error and exactly the map that the store had
    in memory after the [Set]. *)
Theorem X13_restart_restores_map `{MapOrder} (k v : string) (m : Map) (w : World) :
  returned (refresh m w).1.1 = true ->
  plain_keys (M m) -> escape_free_values (M m) -> no_final_backslash (M m) ->
  plain_key k = true -> escape_free v = true -> ends_with backslash v = false ->
  M (refresh m w).1.2 !! k <> Some v ->
  File m ∉ readonly w ->
  (forall f, fs w !! File m = Some f -> readable f = true) ->
  (NewMapFrom (File m) (Set_ k v m w).2).1.2 = Returned None /\
  M (NewMapFrom (File m) (Set_ k v m w).2).1.1 = M (Set_ k v m w).1.2.
Proof.
  intros Hret Hplain Hfree Hend Hk Hv Hv' Hcur Hrw Hread.
  destruct (refresh_shape m w) as (Hp0 & Hf0 & He0).
  specialize (Hp0 Hplain). specialize (Hf0 Hfree). specialize (He0 Hend).
  pose proof (refresh_File m w) as HFile.
  assert (Hmode : match fs w !! File m with
                  | Some f => readable f | None => true end = true).
  { destruct (fs w !! File m) as [f|] eqn:Hf; [by apply Hread | done]. }
  rewrite Set_eq.
  set (m0 := (refresh m w).1.2) in *.
  destruct (refresh m w).1.1 as [e|msg]; [| done].
  rewrite decide_False by done. rewrite save_eq.
  cbn [File with_M]. rewrite HFile. rewrite decide_False by done.
  cbn [fst snd M with_M].
  unfold NewMapFrom. rewrite loadFile_eq, written_lookup.
  cbn [readable]. rewrite Hmode. cbn [fst snd reloaded M data].
  assert (Hp1 : plain_keys (<[k:=v]> (M m0))) by by apply plain_keys_insert.
  assert (He1 : no_final_backslash (<[k:=v]> (M m0))) by by apply map_Forall_insert_2.
  assert (Hf1 : escape_free_values (<[k:=v]> (M m0))) by by apply map_Forall_insert_2.
  unfold load_outcome.
  rewrite (reload_returns (<[k:=v]> (M m0)) _ (range_perm _ _) ∅)
    by by apply reads_back_plain.
  split; [done |]. cbn [snd].
  by apply (reload_exact (<[k:=v]> (M m0)) _ (range_perm _ _)).
Qed.

(** A file that says [a=1]: after [Set("k", v)] with a value of two
    lines, a new store on the file has both entries. *)
Lemma X13_restart_restores_map_witness :
  M (NewMapFrom DefaultFileName
       (Set_ (H := listed_order) "k" two_line_value fresh_store
          (world_with_file ("a=1" +:+ nl))).2).1.1
  = {[ "a" := "1"; "k" := two_line_value ]}.
Proof.
  assert (Hp : plain_keys (M fresh_store)) by apply map_Forall_empty.
  assert (He : escape_free_values (M fresh_store)) by apply map_Forall_empty.
  assert (Hb : no_final_backslash (M fresh_store)) by apply map_Forall_empty.
  assert (Hc : M (refresh fresh_store (world_with_file ("a=1" +:+ nl))).1.2 !! "k"
               <> Some two_line_value).
  { vm_compute. discriminate. }
  assert (Hw : File fresh_store ∉ readonly (world_with_file ("a=1" +:+ nl)))
    by apply not_elem_of_empty.
  assert (Hr : forall f, fs (world_with_file ("a=1" +:+ nl)) !! File fresh_store = Some f ->
                         readable f = true).
  { intros f Hf. vm_compute in Hf. by injection Hf as <-. }
  destruct (X13_restart_restores_map (H := listed_order) "k" two_line_value
              fresh_store (world_with_file ("a=1" +:+ nl)) eq_refl Hp He Hb
              eq_refl eq_refl eq_refl Hc Hw Hr) as [_ Heq].
  change (File fresh_store) with DefaultFileName in Heq.
  rewrite Heq. reflexivity.
Defined.

(** ** The text of [MarshalText], and what [save] leaves for [refresh] *)

(** X14: [MarshalText] always returns, with a nil error, and changes
    neither the store nor the disk.  Its text is made, for the entries of
    the map in some order, of the key, an [=], the escaped value and a
    line feed for each.  For a map with plain keys the text has one line
    per entry, the line of the entry being the key, an [=] and the
    escaped value, and nothing else; for the empty map the text is
    empty. *)
Theorem X14_marshal_text_lines `{MapOrder} (m : Map) (w : World) :
  exists text,
    (MarshalText m w).1.1 = Returned (text, None) /\
    (MarshalText m w).1.2 = m /\
    same_disk w (MarshalText m w).2 /\
    (exists kvs, kvs ≡ₚ map_to_list (M m) /\ text = records_text kvs) /\
    (M m = ∅ -> text = EmptyString) /\
    (plain_keys (M m) ->
     Lines text ≡ₚ line_of <$> map_to_list (M m) /\
     List.length (Lines text) = size (M m)).
Proof.
  rewrite MarshalText_eq. cbn [fst snd]. eexists.
  split; [done |]. split; [done |]. split; [done |]. split; [| split].
  - eexists. split; [apply range_perm | apply marshal_records_text].
  - intros ->. pose proof (range_perm (rng w) ∅) as Hp.
    rewrite map_to_list_empty in Hp. apply Permutation_nil_r in Hp.
    by rewrite Hp.
  - intros Hplain.
    assert (Hl : Lines (marshal (range (rng w) (M m)))
                 = line_of <$> range (rng w) (M m)).
    { apply Lines_marshal, Forall_forall. intros [k v] Hin. simpl.
      rewrite range_perm in Hin. apply elem_of_map_to_list in Hin.
      pose proof (Hplain k v Hin) as Hk. apply plain_key_spec in Hk. tauto. }
    rewrite Hl. split.
    + by rewrite range_perm.
    + rewrite length_fmap, range_perm. apply length_map_to_list.
Qed.

(** The text of a store with the two entries [a=1] and [b=2] has two
    lines. *)
Lemma X14_marshal_text_lines_witness :
  exists text,
    (MarshalText (H := listed_order)
       (mkMap {[ "a" := "1"; "b" := "2" ]} DefaultFileName 0) empty_world).1.1
    = Returned (text, None) /\
    List.length (Lines text) = 2.
Proof.
  assert (Hp : plain_keys (M (mkMap {[ "a" := "1"; "b" := "2" ]} DefaultFileName 0))).
  { apply map_Forall_insert_2; [reflexivity |].
    apply map_Forall_singleton. reflexivity. }
  destruct (X14_marshal_text_lines (H := listed_order)
              (mkMap {[ "a" := "1"; "b" := "2" ]} DefaultFileName 0) empty_world)
    as (text & Htext & _ & _ & _ & _ & Hlines).
  exists text. split; [exact Htext |].
  destruct (Hlines Hp) as [_ ->]. reflexivity.
Defined.

(** X15: [save] does not record the time of its own write.  After a
    [Set] whose [refresh] did not panic and that wrote the file, in a
    world whose clock is ahead of the last load, the file counts as
    changed: the next [refresh] reads back the file that the store itself
    just wrote, merging its records into the map and keeping the time of
    the write, and only then is the store settled. *)
Theorem X15_own_write_is_read_back `{MapOrder} (k v : string) (m : Map) (w : World) :
  returned (refresh m w).1.1 = true ->
  M (refresh m w).1.2 !! k <> Some v ->
  File m ∉ readonly w ->
  lastload (refresh m w).1.2 < clock w ->
  (forall f, fs w !! File m = Some f -> readable f = true) ->
  (fileHasChanged (Set_ k v m w).1.2 (Set_ k v m w).2).1.1 = Returned true /\
  ~ settled (Set_ k v m w).1.2 (Set_ k v m w).2 /\
  (exists kvs, kvs ≡ₚ map_to_list (M (Set_ k v m w).1.2) /\
     (refresh (Set_ k v m w).1.2 (Set_ k v m w).2).1.2 =
       mkMap (load_lines (M (Set_ k v m w).1.2) (Lines (records_text kvs))).2
             (File m) (clock w)) /\
  settled (refresh (Set_ k v m w).1.2 (Set_ k v m w).2).1.2 (Set_ k v m w).2.
Proof.
  intros Hret Hcur Hrw Hlt Hread.
  pose proof (refresh_File m w) as HFile.
  assert (Hmode : match fs w !! File m with
                  | Some f => readable f | None => true end = true).
  { destruct (fs w !! File m) as [f|] eqn:Hf; [by apply Hread | done]. }
  split; [| split; [| split; [| apply refresh_settles]]]; revert Hlt Hcur;
    rewrite Set_eq; set (m0 := (refresh m w).1.2) in *;
    (destruct (refresh m w).1.1 as [e|msg]; [| done]); intros Hlt Hcur;
    rewrite decide_False by done; rewrite save_eq;
    cbn [File with_M]; rewrite HFile; rewrite decide_False by done;
    cbn [fst snd];
    assert (Hnew : Nat.ltb (lastload m0) (clock w) = true) by by apply Nat.ltb_lt.
  - unfold fileHasChanged, os_Stat, bind, getMap, getWorld, ret.
    cbn [File with_M]. rewrite HFile, written_lookup. cbn [fst snd modTime lastload].
    f_equal. exact Hnew.
  - unfold settled. cbn [File with_M lastload]. rewrite HFile, written_lookup.
    cbn [readable modTime]. rewrite Hmode. intros [Hr|Hle]; [done | lia].
  - eexists. split; [apply range_perm |].
    rewrite refresh_eq. cbn [File with_M lastload]. rewrite HFile, written_lookup.
    cbn [readable modTime]. rewrite Hnew, Hmode.
    cbn [fst snd]. unfold reloaded. cbn [M data modTime File with_M].
    by rewrite HFile, marshal_records_text.
Qed.

(** After [Set] on a new store, the file that [Set] created counts as
    changed. *)
Lemma X15_own_write_is_read_back_witness :
  (fileHasChanged (Set_ (H := listed_order) "k" "v" fresh_store empty_world).1.2
     (Set_ (H := listed_order) "k" "v" fresh_store empty_world).2).1.1
  = Returned true.
Proof.
  assert (H1 : M (refresh fresh_store empty_world).1.2 !! "k" <> Some "v").
  { vm_compute. discriminate. }
  assert (H2 : File fresh_store ∉ readonly empty_world) by apply not_elem_of_empty.
  assert (H3 : lastload (refresh fresh_store empty_world).1.2 < clock empty_world).
  { vm_compute. constructor. }
  assert (H4 : forall f, fs empty_world !! File fresh_store = Some f ->
                         readable f = true).
  { intros f Hf. vm_compute in Hf. discriminate. }
  exact (proj1 (X15_own_write_is_read_back (H := listed_order) "k" "v"
                  fresh_store empty_world eq_refl H1 H2 H3 H4)).
Defined.

(** ** [Init] *)



(** X17: what [Init] does for the operations that follow.  For a store
    with a path of its own whose file is missing and can be created,
    [Delete] after [Init] succeeds (without [Init] it fails, X8).  For a
    store for which [Init] made sure of another path than [File], the
    default one, while there is no file at [File]: [Delete] after a
    successful [Init] still fails with the error of [os.Open] on [File],
    and deletes nothing. *)
Theorem X17_init_then_delete `{MapOrder} `{ExeEnv} (k : string) (m : Map) (w : World) :
  fs w !! File m = None ->
  (init_target m = inl (File m) -> File m ∉ readonly w ->
   ((Init ;;; Delete k) m w).1.1 = Returned None /\
   M ((Init ;;; Delete k) m w).1.2 = delete k (M m)) /\
  (forall p, init_target m = inl p -> p <> File m ->
   ((Init ;;; Delete k) m w).1.1 = Returned (Some (PathError "open" (File m))) /\
   ((Init ;;; Delete k) m w).1.2 = m).
Proof.
  intros Hf. split.
  - intros Ht Hrw. unfold bind. rewrite Init_eq, Ht, Hf.
    rewrite decide_False by done.
    assert (Hr : (refresh m (touched w (File m))).1.1 = Returned None /\
                 M (refresh m (touched w (File m))).1.2 = M m).
    { rewrite refresh_eq. unfold touched. cbn [fs].
      rewrite lookup_insert_eq. cbn [modTime readable].
      by destruct (Nat.ltb (lastload m) (clock w)). }
    destruct Hr as [Hr1 Hr2].
    rewrite Delete_eq, Hr1, save_eq. cbn [File with_M]. rewrite refresh_File.
    rewrite decide_False by done. cbn [fst snd M with_M]. by rewrite Hr2.
  - intros p Ht Hne. unfold bind. rewrite Init_eq, Ht.
    destruct (fs w !! p) eqn:Hp.
    + rewrite Delete_eq, refresh_eq, Hf. done.
    + destruct (decide (p ∈ readonly w)).
      * rewrite Delete_eq, refresh_eq, Hf. done.
      * rewrite Delete_eq, refresh_eq. unfold touched. cbn [fs].
        rewrite lookup_insert_ne by done. rewrite Hf. done.
Qed.

(** The store on [vars.properties] with no file: [Init] then [Delete]
    succeeds.  The store with no path: [Init] creates the default file,
    and [Delete] fails on the empty path. *)
Lemma X17_init_then_delete_witness :
  ((Init (H := state_env) ;;; Delete (H := listed_order) "a")
     (store_with "a" "1") empty_world).1.1 = Returned None /\
  ((Init (H := state_env) ;;; Delete (H := listed_order) "a")
     NewMap empty_world).1.1 = Returned (Some (PathError "open" EmptyString)).
Proof.
  destruct (X17_init_then_delete (H := listed_order) (H0 := state_env) "a"
              (store_with "a" "1") empty_world eq_refl) as [Hown _].
  destruct (X17_init_then_delete (H := listed_order) (H0 := state_env) "a"
              NewMap empty_world eq_refl) as [_ Hdefault].
  split.
  - apply Hown; [reflexivity | apply not_elem_of_empty].
  - apply (Hdefault "/state/vars.properties"); [reflexivity | discriminate].
Defined.

(** ** [Data] *)

(** X18: [Data] shows the disk, not the memory.  It changes nothing; its
    result is the same for every map and every time of last load that the
    store may have; with no file it returns the error of the read and an
    empty text; and right after a [Set] whose [refresh] did not panic and
    that wrote the file, it returns the text of the format for all the
    entries of the map, in some order. *)
Theorem X18_data_reads_disk `{MapOrder} (k v : string) (m : Map) (w : World) :
  ((Data m w).1.2 = m /\ (Data m w).2 = w) /\
  (forall mp t, (Data (mkMap mp (File m) t) w).1.1 = (Data m w).1.1) /\
  (fs w !! File m = None ->
   (Data m w).1.1 = Returned (EmptyString, Some (PathError "open" (File m)))) /\
  (returned (refresh m w).1.1 = true ->
   M (refresh m w).1.2 !! k <> Some v ->
   File m ∉ readonly w ->
   (forall f, fs w !! File m = Some f -> readable f = true) ->
   exists kvs, kvs ≡ₚ map_to_list (<[k := v]> (M (refresh m w).1.2)) /\
     ((Set_ k v ;;; Data) m w).1.1 = Returned (records_text kvs, None)).
Proof.
  split; [by rewrite Data_eq |]. split; [| split].
  - intros mp t. by rewrite !Data_eq.
  - intros Hf. by rewrite Data_eq, Hf.
  - intros Hret Hcur Hrw Hread.
    pose proof (refresh_File m w) as HFile.
    assert (Hmode : match fs w !! File m with
                    | Some f => readable f | None => true end = true).
    { destruct (fs w !! File m) as [f|] eqn:Hf; [by apply Hread | done]. }
    eexists. split; [apply range_perm |].
    unfold bind. rewrite Set_eq.
    destruct (refresh m w).1.1 as [e|msg]; [| done].
    rewrite decide_False by done. rewrite save_eq.
    cbn [File with_M]. rewrite HFile. rewrite decide_False by done.
    rewrite Data_eq. cbn [File with_M fst snd M]. rewrite HFile, written_lookup.
    cbn [readable data]. by rewrite Hmode, marshal_records_text.
Qed.

(** [Set] on a new store, then [Data]: the one line. *)
Lemma X18_data_reads_disk_witness :
  ((Set_ (H := listed_order) "k" "v" ;;; Data) fresh_store empty_world).1.1
  = Returned ("k=v" +:+ nl, None) /\
  (Data (store_with "a" "1") empty_world).1.1
  = Returned (EmptyString, Some (PathError "open" DefaultFileName)).
Proof.
  destruct (X18_data_reads_disk (H := listed_order) "k" "v" fresh_store empty_world)
    as (_ & _ & _ & Hset).
  destruct (X18_data_reads_disk (H := listed_order) "k" "v"
              (store_with "a" "1") empty_world) as (_ & _ & Hno & _).
  split; [| exact (Hno eq_refl)].
  destruct Hset as (kvs & _ & _).
  - reflexivity.
  - vm_compute. discriminate.
  - apply not_elem_of_empty.
  - intros f Hf. vm_compute in Hf. discriminate.
  - reflexivity.
Defined.
(** * Properties of the completers *)

(** X19: [Complete] for a command without a completer of its own.
    Without arguments it returns the name of the command and nothing
    else: the second test of [len(args) == 0] is never reached, and the
    list of commands is never returned whole.  With arguments, only the
    first one counts: the result is made of the visible names that begin
    with it, in the order commands, parameters, shortcuts.  With a
    completer, the answer is the completer's. *)
Theorem X19_complete_prefix {Cmd} `{Completers.Command Cmd} `{Completers.Helpers}
    (x : Cmd) (a : string) (rest : list string) :
  (forall c args, Completers.GetComp x = Some c ->
     Completers.Complete x args = c x args) /\
  (Completers.GetComp x = None ->
   Completers.Complete x [] = [Completers.GetName x] /\
   Completers.Complete x (a :: rest) = Completers.Complete x [a] /\
   Completers.Complete x (a :: rest) =
     List.filter (String.prefix a)
       (Completers.MinusAsString
          (Completers.GetCommandNames x ++ Completers.GetParams x
             ++ Completers.GetShortcuts x)%list
          (Completers.GetHidden x)) /\
   (forall s, s ∈ Completers.Complete x (a :: rest) -> String.prefix a s = true)).
Proof.
  unfold Completers.Complete. split.
  - by intros c args ->.
  - intros ->. cbn [List.length Nat.eqb List.nth List.app].
    unfold Completers.HasPrefix. rewrite <- app_assoc.
    split; [done |]. split; [done |]. split; [done |].
    intros s Hs. apply list_elem_of_In, List.filter_In in Hs. tauto.
Qed.

(** The demo command: [b] completes to [build] alone, [bench] being
    hidden; a second argument changes nothing; no argument gives the
    name. *)
Lemma X19_complete_prefix_witness :
  Completers.Complete (H := demo_command) (H0 := minus_helpers) tt ["b"; "x"]
  = ["build"] /\
  Completers.Complete (H := demo_command) (H0 := minus_helpers) tt [] = ["demo"].
Proof.
  destruct (X19_complete_prefix (H := demo_command) (H0 := minus_helpers)
              tt "b" ["x"]) as [_ Hnone].
  destruct (Hnone eq_refl) as (Hname & _ & Hlist & _).
  split; [| exact Hname].
  rewrite Hlist. reflexivity.
Defined.

(** ** The completer [File] *)

Lemma File_loop_returned `{Comp.FileSystem} (fuel : nat) (d pre : string)
    (l : list string) :
  Comp.File_loop fuel d pre = Some (Returned l) ->
  1 < List.length l \/ exists e, l = [e] /\ Comp.IsDir e = false.
Proof.
  revert d. induction fuel as [|fuel IH]; intros d; [done |].
  cbn [Comp.File_loop]. cbv zeta.
  destruct (Nat.ltb_spec 1 (List.length (Comp.BaseHasPrefix (Comp.Entries d) pre)))
    as [Hlt|Hle].
  - intros [= <-]. by left.
  - destruct (Comp.BaseHasPrefix (Comp.Entries d) pre) as [|e [|e' l']] eqn:Hl.
    + done.
    + destruct (Comp.IsDir e) eqn:He; [apply IH |].
      intros [= <-]. right. by exists e.
    + simpl in Hle. lia.
Qed.

(** X20: [File] on one argument with a directory part.  The answer is
    that of the loop over that directory.  When no entry of the directory
    matches, [File] does not return the empty list: it panics, with an
    index out of range.  When it returns, the list has either several
    entries or one entry that is not a directory: a lone directory is
    never returned, it is descended into. *)
Theorem X20_file_directory_loop `{Comp.FileSystem} (fuel : nat) (x : option string)
    (a d pre : string) :
  a <> EmptyString ->
  Comp.Split (Comp.TrimRight_slash a) = (d, pre) ->
  d <> EmptyString ->
  Comp.File fuel x (Some [a]) = Comp.File_loop fuel d pre /\
  (Comp.BaseHasPrefix (Comp.Entries d) pre = [] ->
   Comp.File (S fuel) x (Some [a])
   = Some (Panicked "index out of range [0] with length 0")) /\
  (forall l, Comp.File fuel x (Some [a]) = Some (Returned l) ->
   1 < List.length l \/ exists e, l = [e] /\ Comp.IsDir e = false).
Proof.
  intros Ha Hsplit Hd.
  assert (Heq : forall n, Comp.File n x (Some [a]) = Comp.File_loop n d pre).
  { intros n. unfold Comp.File. cbn [List.length Nat.ltb Nat.leb Nat.eqb orb andb].
    apply String.eqb_neq in Ha, Hd. rewrite Ha, Hsplit, Hd. done. }
  split; [apply Heq |]. split.
  - intros Hnone. rewrite Heq. cbn [Comp.File_loop]. by rewrite Hnone.
  - intros l. rewrite Heq. apply File_loop_returned.
Qed.

(** In the tree where [docs/] holds only the directory [docs/api/]:
    completing [docs/a] descends into [docs/api/] and returns the one
    file there that begins with [a]; completing [docs/x] panics. *)
Lemma X20_file_directory_loop_witness :
  Comp.File (H := Comp.docs_tree) 5 None (Some ["docs/a"])
  = Some (Returned ["docs/api/a.md"]) /\
  Comp.File (H := Comp.docs_tree) 5 None (Some ["docs/x"])
  = Some (Panicked "index out of range [0] with length 0").
Proof.
  assert (Hx : "docs/x" <> EmptyString) by discriminate.
  assert (Hd : "docs/" <> EmptyString) by discriminate.
  destruct (X20_file_directory_loop (H := Comp.docs_tree) 4 None "docs/x" "docs/" "x"
              Hx eq_refl Hd) as (_ & Hpanic & _).
  split; [reflexivity |].
  exact (Hpanic eq_refl).
Defined.

(** * Two writers on one file *)

Lemma refresh_keeps_unlisted (m : Map) (w : World) (k v : string) :
  M m !! k = Some v ->
  (forall f, fs w !! File m = Some f -> k ∉ keys_of_text (data f)) ->
  M (refresh m w).1.2 !! k = Some v.
Proof.
  intros Hk Hno. rewrite refresh_eq.
  destruct (fs w !! File m) as [f|] eqn:Hf; [| done].
  destruct (Nat.ltb _ _); [| done].
  destruct (readable f); [| done].
  cbn [fst snd reloaded M]. rewrite load_lines_other; [done |].
  by apply Hno.
Qed.

(** X21: [Set] rewrites the file from the merged view of memory and
    file.  Take a [Set] whose [refresh] does not panic, that has
    something to write and can write it.  An entry that this store holds
    and that the file no longer has, say because another process deleted
    it, is written back: it is among the entries whose text, key, [=],
    escaped value and line feed for each, the file now holds.  And a
    record that another process added to the file, the file being
    readable and newer than the last load, is kept: its value unescapes,
    and the entry is in the map and among the entries written. *)
Theorem X21_set_writes_merged_view `{MapOrder} (k v k' : string) (m : Map) (w : World) :
  returned (refresh m w).1.1 = true ->
  k' <> k ->
  M (refresh m w).1.2 !! k <> Some v ->
  File m ∉ readonly w ->
  (forall v', M m !! k' = Some v' ->
     (forall f, fs w !! File m = Some f -> k' ∉ keys_of_text (data f)) ->
     exists kvs, kvs ≡ₚ map_to_list (M (Set_ k v m w).1.2) /\ (k', v') ∈ kvs /\
       data <$> (fs (Set_ k v m w).2 !! File m) = Some (records_text kvs)) /\
  (forall f x, fs w !! File m = Some f -> readable f = true ->
     lastload m < modTime f ->
     record_of k' (Lines (data f)) = Some x ->
     exists u, UnEscReturns x = Returned u /\
       M (Set_ k v m w).1.2 !! k' = Some u /\
       exists kvs, kvs ≡ₚ map_to_list (M (Set_ k v m w).1.2) /\ (k', u) ∈ kvs /\
         data <$> (fs (Set_ k v m w).2 !! File m) = Some (records_text kvs)).
Proof.
  intros Hret Hne Hcur Hrw.
  assert (Hset : Set_ k v m w =
            (Returned None,
             with_M (refresh m w).1.2 (<[k:=v]> (M (refresh m w).1.2)),
             written w (File m)
               (marshal (range (rng w) (<[k:=v]> (M (refresh m w).1.2)))))).
  { rewrite Set_eq. destruct (refresh m w).1.1 as [e|msg]; [| done].
    rewrite decide_False by done.
    rewrite save_eq. cbn [File with_M M]. rewrite refresh_File.
    by rewrite decide_False. }
  rewrite Hset. cbn [fst snd M with_M]. rewrite written_lookup.
  cbn [fmap option_fmap option_map data]. rewrite marshal_records_text.
  assert (Hin : forall v', M (refresh m w).1.2 !! k' = Some v' ->
            (k', v') ∈ range (rng w) (<[k:=v]> (M (refresh m w).1.2))).
  { intros v' Hk'. rewrite range_perm. apply elem_of_map_to_list.
    by rewrite lookup_insert_ne. }
  split.
  - intros v' Hk' Hno. eexists. split; [apply range_perm |]. split; [| done].
    apply Hin. by apply refresh_keeps_unlisted.
  - intros f x Hf Hr Hlt Hrec.
    assert (Hk' : M (refresh m w).1.2 !! k' = unescaped x).
    { revert Hret. rewrite refresh_eq, Hf, Hr. apply Nat.ltb_lt in Hlt. rewrite Hlt.
      cbn [fst snd reloaded M]. intros Hret.
      rewrite load_outcome_returned in Hret.
      rewrite (load_lines_lookup _ _ k' (load_lines_sound _ _ Hret)).
      by rewrite Hrec. }
    assert (Hu : exists u, UnEscReturns x = Returned u).
    { revert Hret. rewrite refresh_eq, Hf, Hr. apply Nat.ltb_lt in Hlt. rewrite Hlt.
      cbn [fst snd]. rewrite load_outcome_returned. intros Hs.
      by apply (record_of_unescapes _ k' x Hs). }
    destruct Hu as [u Hu]. exists u. split; [exact Hu |].
    unfold unescaped in Hk'. rewrite Hu in Hk'.
    split.
    + by rewrite lookup_insert_ne.
    + eexists. split; [apply range_perm |]. split; [| done]. by apply Hin.
Qed.

(** A store that still holds [a=1] while the file now says only [b=2]:
    after [Set("c", "3")] the map has [a] and [b], and the file has the
    line of [a] again. *)
Lemma X21_set_writes_merged_view_witness :
  (exists kvs, ("a", "1") ∈ kvs /\
     data <$> (fs (Set_ (H := listed_order) "c" "3" (store_with "a" "1")
                     (world_with_file ("b=2" +:+ nl))).2 !! DefaultFileName)
     = Some (records_text kvs)) /\
  M (Set_ (H := listed_order) "c" "3" (store_with "a" "1")
       (world_with_file ("b=2" +:+ nl))).1.2 !! "b" = Some "2".
Proof.
  assert (H1 : "b" <> "c") by discriminate.
  assert (H2 : M (refresh (store_with "a" "1") (world_with_file ("b=2" +:+ nl))).1.2
               !! "c" <> Some "3").
  { vm_compute. discriminate. }
  assert (H3 : File (store_with "a" "1") ∉ readonly (world_with_file ("b=2" +:+ nl)))
    by apply not_elem_of_empty.
  destruct (X21_set_writes_merged_view (H := listed_order) "c" "3" "b"
              (store_with "a" "1") (world_with_file ("b=2" +:+ nl)) eq_refl H1 H2 H3)
    as [_ Hkept].
  destruct (X21_set_writes_merged_view (H := listed_order) "c" "3" "a"
              (store_with "a" "1") (world_with_file ("b=2" +:+ nl))) as [Hback _];
    [reflexivity | discriminate | exact H2 | exact H3 |].
  destruct (Hkept (mkFile ("b=2" +:+ nl) 1 true) "2" eq_refl eq_refl)
    as (u & Hu & Hb & _).
  - simpl. lia.
  - reflexivity.
  - injection Hu as <-. split; [| exact Hb].
    destruct (Hback "1" eq_refl) as (kvs & _ & Hin & Hd).
    + intros f Hf. vm_compute in Hf. injection Hf as <-.
      vm_compute. intros Hin. apply list_elem_of_singleton in Hin. discriminate.
    + by exists kvs.
Defined.
